(** * obsidian-ultimate-guide: the particle field and the reveal observer

    A shallow embedding of the two effects of
    [src/components/obsidian-ultimate-guide.tsx]:

    - the particle animation ([Particle], [resizeCanvas], [animate] and the
      cleanup of the first [useEffect]);
    - the [IntersectionObserver] callback that fills [isVisible].

    JavaScript numbers are IEEE-754 binary64 values.  The code is written
    once over an interface [Number] of the operations it uses and read at
    two instances: [binary64] (Rocq's primitive floats, which compute what
    the browser computes) and [real] (exact arithmetic, the "real-valued"
    coordinates of the specification).  Statements that hold whatever the
    arithmetic are proved for every instance; statements that need exact
    arithmetic are proved at [real] and say so. *)

From Stdlib Require Import ZArith Reals Lra Lia Floats Uint63.
From stdpp Require Import base list gmap strings.

Set Default Proof Using "Type".

(** ** Numbers *)

Class Number : Type := {
  num : Type;
  of_Z : Z -> num;
  js_add : num -> num -> num;
  js_sub : num -> num -> num;
  js_mul : num -> num -> num;
  js_div : num -> num -> num;
  js_lt : num -> num -> bool;
  Math_sqrt : num -> num;
  Math_PI : num
}.

Declare Scope js_scope.
Delimit Scope js_scope with js.
Notation "a + b" := (js_add a b) : js_scope.
Notation "a - b" := (js_sub a b) : js_scope.
Notation "a * b" := (js_mul a b) : js_scope.
Notation "a / b" := (js_div a b) : js_scope.
Notation "a <? b" := (js_lt a b) : js_scope.
Notation "a >? b" := (js_lt b a) (only parsing) : js_scope.

(** A decimal literal [m / 10^e]: [0.5] is [dec 5 1].  At [binary64] the
    division of two exactly represented integers is correctly rounded, which
    is the value the JavaScript parser gives the literal. *)
Definition dec `{Number} (m : Z) (e : nat) : num :=
  (of_Z m / of_Z (10 ^ Z.of_nat e))%js.

Definition float_of_Z (z : Z) : float :=
  match z with
  | Z0 => PrimFloat.of_uint63 0%uint63
  | Zpos _ => PrimFloat.of_uint63 (Uint63.of_Z z)
  | Zneg p => PrimFloat.opp (PrimFloat.of_uint63 (Uint63.of_Z (Zpos p)))
  end.

Definition binary64 : Number := {|
  num := float;
  of_Z := float_of_Z;
  js_add := PrimFloat.add;
  js_sub := PrimFloat.sub;
  js_mul := PrimFloat.mul;
  js_div := PrimFloat.div;
  js_lt := PrimFloat.ltb;
  Math_sqrt := PrimFloat.sqrt;
  Math_PI := 0x1.921fb54442d18p+1%float
|}.

Definition Rltb (a b : R) : bool := if Rlt_dec a b then true else false.

Definition real : Number := {|
  num := R;
  of_Z := IZR;
  js_add := Rplus;
  js_sub := Rminus;
  js_mul := Rmult;
  js_div := Rdiv;
  js_lt := Rltb;
  Math_sqrt := R_sqrt.sqrt;
  Math_PI := PI
|}.

(** ** The drawing surface and the 2D context *)

(** [c.width] and [c.height], the bounds [Particle] reads. *)
Record Canvas `{Number} : Type := {
  width : num;
  height : num
}.

(** What [canvasRef.current] holds when it is not [null]: the layout size
    [resizeCanvas] copies, and whether [getContext('2d')] gives a context. *)
Record CanvasElement `{Number} : Type := {
  offsetWidth : num;
  offsetHeight : num;
  has_2d_context : bool
}.

(** The calls made on [ctx], in order.  The stroke style is the template
    [rgba(124, 58, 237, ${1 - distance / 150})]: its last component is kept
    as a number. *)
Inductive CtxCall `{Number} : Type :=
| SetFillStyle (style : string)
| FillRect (x0 y0 w h : num)
| BeginPath
| Arc (cx cy radius a0 a1 : num)
| Fill
| SetStrokeStyle (r g b : Z) (alpha : num)
| SetLineWidth (w : num)
| MoveTo (px py : num)
| LineTo (px py : num)
| Stroke.

(** ** Particle *)

Record Particle `{Number} : Type := {
  x : num;
  y : num;
  vx : num;
  vy : num;
  size : num
}.

(** [Math.random()]: the draws are an input, consumed in order. *)
Record RandomSource `{Number} : Type := {
  draws : nat -> num;
  cursor : nat
}.

Section ParticleField.
Context `{N : Number}.
Local Open Scope js_scope.

Definition Math_random (g : RandomSource) : num * RandomSource :=
  (draws g (cursor g), {| draws := draws g; cursor := S (cursor g) |}).

(** [constructor()] *)
Definition Particle_new (c : Canvas) (g : RandomSource)
  : Particle * RandomSource :=
  let '(r1, g) := Math_random g in
  let '(r2, g) := Math_random g in
  let '(r3, g) := Math_random g in
  let '(r4, g) := Math_random g in
  let '(r5, g) := Math_random g in
  ({| x := r1 * width c;
      y := r2 * height c;
      vx := (r3 - dec 5 1) * dec 5 1;
      vy := (r4 - dec 5 1) * dec 5 1;
      size := r5 * of_Z 2 + of_Z 1 |}, g).

(** [this.x < 0 || this.x > c.width], for either axis. *)
Definition outside (v bound : num) : bool :=
  (v <? of_Z 0) || (v >? bound).

(** [update()] *)
Definition update (c : Canvas) (p : Particle) : Particle :=
  let x1 := x p + vx p in
  let y1 := y p + vy p in
  let vx1 := if outside x1 (width c) then vx p * of_Z (-1) else vx p in
  let vy1 := if outside y1 (height c) then vy p * of_Z (-1) else vy p in
  {| x := x1; y := y1; vx := vx1; vy := vy1; size := size p |}.

(** [draw()]; the guard [if (!ctx) return] never fires, the effect having
    returned before the class is declared when there is no context. *)
Definition draw (p : Particle) : list CtxCall :=
  [ SetFillStyle "#7C3AED"; BeginPath;
    Arc (x p) (y p) (size p) (of_Z 0) (Math_PI * of_Z 2); Fill ].

(** The loop [for (let i = 0; i < particleCount; i++) particles.push(new Particle())],
    [todo] iterations from now. *)
Fixpoint create_particles (todo : nat) (c : Canvas) (g : RandomSource)
    (particles : list Particle) : list Particle * RandomSource :=
  match todo with
  | O => (particles, g)
  | S todo' =>
      let '(p, g') := Particle_new c g in
      create_particles todo' c g' (particles ++ [p])
  end.

Definition particleCount : nat := 80.

(** [particles.forEach((particle) => { particle.update(); particle.draw() })]:
    every particle is replaced by its updated self and its circle is logged
    before the next particle is touched. *)
Fixpoint update_and_draw (c : Canvas) (particles : list Particle)
    (log : list CtxCall) : list Particle * list CtxCall :=
  match particles with
  | [] => ([], log)
  | p :: rest =>
      let p' := update c p in
      let log' := log ++ draw p' in
      let '(rest', log'') := update_and_draw c rest log' in
      (p' :: rest', log'')
  end.

(** The body of the inner callback of "Draw connections". *)
Definition connect (p1 p2 : Particle) : list CtxCall :=
  let dx := x p1 - x p2 in
  let dy := y p1 - y p2 in
  let distance := Math_sqrt (dx * dx + dy * dy) in
  if distance <? of_Z 150 then
    [ SetStrokeStyle 124 58 237 (of_Z 1 - distance / of_Z 150);
      SetLineWidth (dec 5 1); BeginPath;
      MoveTo (x p1) (y p1); LineTo (x p2) (y p2); Stroke ]
  else [].

(** [particles.forEach((p1, i) => particles.slice(i + 1).forEach((p2) => ...))] *)
Definition draw_connections (particles : list Particle) : list CtxCall :=
  concat (imap (fun i p1 => concat (map (connect p1) (drop (i + 1) particles)))
               particles).

End ParticleField.

(** ** The component and its host *)

(** An [IntersectionObserverEntry], as the callback reads it: [entry.target.id]
    and [entry.isIntersecting].  The browser sets the flag from the observer's
    [{ threshold: 0.1 }]. *)
Record Entry : Type := {
  target_id : string;
  isIntersecting : bool
}.

(** Everything the two effects read or write.  [canvas], [particles] and
    [animationId] are the variables the first effect closes over; [cleanup]
    records that this effect returned its cleanup function; the rest is the
    browser side: the draws of [Math.random], the calls received by [ctx],
    the animation-frame callbacks requested and not yet run or cancelled
    (all of them are [animate]), whether [resizeCanvas] is registered on
    [window], and whether the observer is connected. *)
Record World `{Number} : Type := {
  canvas : Canvas;
  particles : list Particle;
  animationId : option nat;
  cleanup : bool;
  random : RandomSource;
  ctx_log : list CtxCall;
  raf_pending : list nat;
  raf_next : nat;
  resize_listener : bool;
  isVisible : gmap string bool;
  observing : bool
}.

(** What the host does between two runs of the component's code. *)
Inductive Event `{Number} : Type :=
| AnimationFrame
| WindowResize (layout_width layout_height : num)
| Intersection (entries : list Entry)
| Unmount.

Section Component.
Context `{N : Number}.
Local Open Scope js_scope.

Definition set_canvas (c : Canvas) (w : World) : World :=
  {| canvas := c; particles := particles w; animationId := animationId w;
     cleanup := cleanup w; random := random w; ctx_log := ctx_log w;
     raf_pending := raf_pending w; raf_next := raf_next w;
     resize_listener := resize_listener w; isVisible := isVisible w;
     observing := observing w |}.

Definition set_particles (ps : list Particle) (w : World) : World :=
  {| canvas := canvas w; particles := ps; animationId := animationId w;
     cleanup := cleanup w; random := random w; ctx_log := ctx_log w;
     raf_pending := raf_pending w; raf_next := raf_next w;
     resize_listener := resize_listener w; isVisible := isVisible w;
     observing := observing w |}.

Definition set_animationId (i : option nat) (w : World) : World :=
  {| canvas := canvas w; particles := particles w; animationId := i;
     cleanup := cleanup w; random := random w; ctx_log := ctx_log w;
     raf_pending := raf_pending w; raf_next := raf_next w;
     resize_listener := resize_listener w; isVisible := isVisible w;
     observing := observing w |}.

Definition set_cleanup (b : bool) (w : World) : World :=
  {| canvas := canvas w; particles := particles w; animationId := animationId w;
     cleanup := b; random := random w; ctx_log := ctx_log w;
     raf_pending := raf_pending w; raf_next := raf_next w;
     resize_listener := resize_listener w; isVisible := isVisible w;
     observing := observing w |}.

Definition set_random (g : RandomSource) (w : World) : World :=
  {| canvas := canvas w; particles := particles w; animationId := animationId w;
     cleanup := cleanup w; random := g; ctx_log := ctx_log w;
     raf_pending := raf_pending w; raf_next := raf_next w;
     resize_listener := resize_listener w; isVisible := isVisible w;
     observing := observing w |}.

Definition set_ctx_log (l : list CtxCall) (w : World) : World :=
  {| canvas := canvas w; particles := particles w; animationId := animationId w;
     cleanup := cleanup w; random := random w; ctx_log := l;
     raf_pending := raf_pending w; raf_next := raf_next w;
     resize_listener := resize_listener w; isVisible := isVisible w;
     observing := observing w |}.

Definition set_raf (pending : list nat) (next : nat) (w : World) : World :=
  {| canvas := canvas w; particles := particles w; animationId := animationId w;
     cleanup := cleanup w; random := random w; ctx_log := ctx_log w;
     raf_pending := pending; raf_next := next;
     resize_listener := resize_listener w; isVisible := isVisible w;
     observing := observing w |}.

Definition set_resize_listener (b : bool) (w : World) : World :=
  {| canvas := canvas w; particles := particles w; animationId := animationId w;
     cleanup := cleanup w; random := random w; ctx_log := ctx_log w;
     raf_pending := raf_pending w; raf_next := raf_next w;
     resize_listener := b; isVisible := isVisible w;
     observing := observing w |}.

Definition set_isVisible (m : gmap string bool) (w : World) : World :=
  {| canvas := canvas w; particles := particles w; animationId := animationId w;
     cleanup := cleanup w; random := random w; ctx_log := ctx_log w;
     raf_pending := raf_pending w; raf_next := raf_next w;
     resize_listener := resize_listener w; isVisible := m;
     observing := observing w |}.

Definition set_observing (b : bool) (w : World) : World :=
  {| canvas := canvas w; particles := particles w; animationId := animationId w;
     cleanup := cleanup w; random := random w; ctx_log := ctx_log w;
     raf_pending := raf_pending w; raf_next := raf_next w;
     resize_listener := resize_listener w; isVisible := isVisible w;
     observing := b |}.

(** The component before its effects run: [useState({})], nothing drawn,
    nothing scheduled. *)
Definition initial (g : RandomSource) : World :=
  {| canvas := {| width := of_Z 0; height := of_Z 0 |};
     particles := []; animationId := None; cleanup := false;
     random := g; ctx_log := []; raf_pending := []; raf_next := 1;
     resize_listener := false; isVisible := ∅; observing := false |}.

(** [resizeCanvas], with the layout size the element has at that moment. *)
Definition resizeCanvas (layout_width layout_height : num) (w : World) : World :=
  set_canvas {| width := layout_width; height := layout_height |} w.

Definition requestAnimationFrame (w : World) : nat * World :=
  (raf_next w, set_raf (raf_pending w ++ [raf_next w]) (S (raf_next w)) w).

Definition cancelAnimationFrame (i : option nat) (w : World) : World :=
  match i with
  | Some id =>
      set_raf (filter (fun j => j ≠ id) (raf_pending w)) (raf_next w) w
  | None => w
  end.

(** [animate] *)
Definition animate (w : World) : World :=
  let c := canvas w in
  let log := ctx_log w ++
             [ SetFillStyle "rgba(15, 15, 26, 0.1)";
               FillRect (of_Z 0) (of_Z 0) (width c) (height c) ] in
  let '(ps, log) := update_and_draw c (particles w) log in
  let log := log ++ draw_connections ps in
  let w := set_ctx_log log (set_particles ps w) in
  let '(id, w) := requestAnimationFrame w in
  set_animationId (Some id) w.

(** The first [useEffect]: both guards, then the set-up. *)
Definition particle_effect (current : option CanvasElement) (w : World) : World :=
  match current with
  | None => w
  | Some el =>
      if has_2d_context el then
        let w := resizeCanvas (offsetWidth el) (offsetHeight el) w in
        let w := set_resize_listener true w in
        let '(ps, g) := create_particles particleCount (canvas w) (random w) [] in
        let w := set_random g (set_particles ps w) in
        let w := animate w in
        set_cleanup true w
      else w
  end.

(** The cleanup the first effect returns. *)
Definition particle_cleanup (w : World) : World :=
  cancelAnimationFrame (animationId w) (set_resize_listener false w).

(** The observer's callback:
    [entries.forEach((entry) => { if (entry.isIntersecting) setIsVisible(...) })]. *)
Definition on_entry (m : gmap string bool) (e : Entry) : gmap string bool :=
  if isIntersecting e then <[target_id e := true]> m else m.

Definition observer_callback (entries : list Entry) (w : World) : World :=
  set_isVisible (foldl on_entry (isVisible w) entries) w.

(** The second [useEffect] connects the observer; its cleanup is
    [observer.disconnect()]. *)
Definition observer_effect (w : World) : World := set_observing true w.

Definition mount (current : option CanvasElement) (g : RandomSource) : World :=
  observer_effect (particle_effect current (initial g)).

(** The host: a frame runs the callbacks that were pending when it began; a
    resize calls the listener if it is registered; entries reach the callback
    of a connected observer; unmounting runs the cleanups that were returned,
    once. *)
Definition step (w : World) (ev : Event) : World :=
  match ev with
  | AnimationFrame =>
      foldl (fun w _ => animate w) (set_raf [] (raf_next w) w) (raf_pending w)
  | WindowResize lw lh =>
      if resize_listener w then resizeCanvas lw lh w else w
  | Intersection entries =>
      if observing w then observer_callback entries w else w
  | Unmount =>
      let w := if cleanup w then set_cleanup false (particle_cleanup w) else w in
      set_observing false w
  end.

Definition run (w : World) (evs : list Event) : World := foldl step w evs.

(** How the page reads a flag: [isVisible.concepts ? ... : ...]; a missing
    key reads [undefined], which is falsy. *)
Definition flag (m : gmap string bool) (id : string) : bool :=
  match m !! id with
  | Some true => true
  | _ => false
  end.

Definition reads_visible (w : World) (id : string) : bool :=
  flag (isVisible w) id.

End Component.

(** The sections marked [data-animate], whose flags the page reads.  None of
    these keys is inherited from [Object.prototype], so reading one that was
    never written gives [undefined]. *)
Definition sections : list string :=
  ["concepts"; "features"; "hotkeys"; "advanced"].

(** * The vocabulary of the statements *)

(** The surface and the two particles of the bounce scenario. *)
Definition surface_800x600 `{Number} : Canvas :=
  {| width := of_Z 800; height := of_Z 600 |}.

Definition particle_at `{Number} (px : num) : Particle :=
  {| x := px; y := of_Z 300; vx := dec 5 1; vy := of_Z 0; size := of_Z 2 |}.

(** The two runs of the bounce scenario, at a given arithmetic. *)
Definition bounce_scenario (N : Number) : Prop :=
  let before1 := particle_at (of_Z 799) in
  let before2 := particle_at (dec 7999 1) in
  let after1 := update surface_800x600 before1 in
  let after2 := update surface_800x600 before2 in
  x after1 = dec 7995 1 /\
  outside (x after1) (width surface_800x600) = false /\
  vx after1 = dec 5 1 /\
  x after2 = dec 8004 1 /\
  outside (x after2) (width surface_800x600) = true /\
  vx after2 = dec (-5) 1.

(** The position lies in [0, width] x [0, height]: neither test of
    [update] would fire on it. *)
Definition in_bounds `{Number} (c : Canvas) (p : Particle) : bool :=
  negb (outside (x p) (width c)) && negb (outside (y p) (height c)).

Section ExactBoundsDefs.
#[local] Existing Instance real.

(** A particle is settled when, on each axis, it is within the bounds or its
    next position is. *)
Definition settled (c : @Canvas real) (p : @Particle real) : Prop :=
  (outside (x p) (width c) = false \/
   outside (x p + vx p)%R (width c) = false) /\
  (outside (y p) (height c) = false \/
   outside (y p + vy p)%R (height c) = false).

End ExactBoundsDefs.

(** The particle of the bounce scenario is within the 800x600 surface and
    its update is not. *)
Definition leaves_bounds (N : Number) : Prop :=
  in_bounds surface_800x600 (particle_at (dec 7999 1)) = true /\
  in_bounds surface_800x600
            (update surface_800x600 (particle_at (dec 7999 1))) = false.

Inductive Axis : Type := X | Y.

Section RunsDefs.
Context `{N : Number}.

Definition coord (a : Axis) (p : Particle) : num :=
  match a with X => x p | Y => y p end.

Definition speed (a : Axis) (p : Particle) : num :=
  match a with X => vx p | Y => vy p end.

Definition extent (a : Axis) (c : Canvas) : num :=
  match a with X => width c | Y => height c end.

(** One particle through successive updates.  [bounds] lists the surface each
    update reads, in order: a resize between two frames changes it, and
    nothing else about the particle. *)
Fixpoint updates (bounds : list Canvas) (p : Particle) : Particle :=
  match bounds with
  | [] => p
  | c :: rest => updates rest (update c p)
  end.

(** The number of these updates that multiply the velocity component by -1
    (see [speed_update]). *)
Fixpoint inversions (a : Axis) (bounds : list Canvas) (p : Particle) : nat :=
  match bounds with
  | [] => 0
  | c :: rest =>
      (if outside (coord a (update c p)) (extent a c) then 1 else 0) +
      inversions a rest (update c p)
  end.

(** The number of boundary crossings: updates that take the coordinate from
    within the range to outside it.  [last] is the bound the coordinate was
    last compared with (at creation, the bound it was drawn under), so a
    particle that a resize leaves outside counts as crossing once. *)
Fixpoint crossings (a : Axis) (last : num) (bounds : list Canvas)
    (p : Particle) : nat :=
  match bounds with
  | [] => 0
  | c :: rest =>
      (if negb (outside (coord a p) last) &&
          outside (coord a (update c p)) (extent a c)
       then 1 else 0) +
      crossings a (extent a c) rest (update c p)
  end.

End RunsDefs.

(** A particle created on the 800x600 surface, and the three updates that
    follow a resize to 400x600. *)
Definition drifting `{Number} : Particle :=
  {| x := of_Z 600; y := of_Z 300; vx := dec 25 2; vy := of_Z 0;
     size := of_Z 2 |}.

Definition surface_400x600 `{Number} : Canvas :=
  {| width := of_Z 400; height := of_Z 600 |}.

Definition after_shrinking `{Number} : list Canvas := replicate 3 surface_400x600.

(** The scenario of the shrinking resize: the particle is within the surface
    it was created on, and the three updates after the resize all invert its
    [vx] although its x crossed the bound once at most. *)
Definition shrink_scenario (N : Number) : Prop :=
  in_bounds surface_800x600 drifting = true /\
  inversions X after_shrinking drifting = 3 /\
  crossings X (width surface_800x600) after_shrinking drifting = 1.

(** The pairs of indices [(i, j)] with [i < j < n], in the order the two
    nested [forEach] visit them. *)
Definition index_pairs (n : nat) : list (nat * nat) :=
  seq 0 n ≫= fun i => pair i <$> seq (S i) (n - S i).

Section ConnectionsDefs.
Context `{N : Number}.
Local Open Scope js_scope.

(** The distance the callback computes for a pair. *)
Definition distance (p1 p2 : Particle) : num :=
  Math_sqrt ((x p1 - x p2) * (x p1 - x p2) + (y p1 - y p2) * (y p1 - y p2)).

(** The calls that draw one line of the given opacity. *)
Definition line (p1 p2 : Particle) (alpha : num) : list CtxCall :=
  [ SetStrokeStyle 124 58 237 alpha; SetLineWidth (dec 5 1); BeginPath;
    MoveTo (x p1) (y p1); LineTo (x p2) (y p2); Stroke ].

(** The callback applied to the particles at two positions of the array. *)
Definition connect_at (particles : list Particle) (ij : nat * nat)
  : list CtxCall :=
  match particles !! ij.1, particles !! ij.2 with
  | Some p1, Some p2 => connect p1 p2
  | _, _ => []
  end.

End ConnectionsDefs.

(** Two particles 75 apart, and two particles 150 apart. *)
Definition at_origin `{Number} : Particle :=
  {| x := of_Z 0; y := of_Z 0; vx := of_Z 0; vy := of_Z 0; size := of_Z 1 |}.

Definition on_x_axis `{Number} (d : Z) : Particle :=
  {| x := of_Z d; y := of_Z 0; vx := of_Z 0; vy := of_Z 0; size := of_Z 1 |}.

Section FrameDefs.
Context `{N : Number}.

(** The overlay painted at the start of a frame. *)
Definition overlay (c : Canvas) : list CtxCall :=
  [ SetFillStyle "rgba(15, 15, 26, 0.1)";
    FillRect (of_Z 0) (of_Z 0) (width c) (height c) ].

(** The frame in two separate passes over the particles, followed by the
    connections: first every particle is advanced, then every particle is
    drawn.  Returns the particles and the calls of the frame. *)
Definition frame_in_passes (c : Canvas) (particles : list Particle)
  : list Particle * list CtxCall :=
  let advanced := map (update c) particles in
  let circles := concat (map draw advanced) in
  (advanced, overlay c ++ circles ++ draw_connections advanced).

End FrameDefs.

Section LifetimeDefs.
Context `{N : Number}.

(** The animation is either running, with exactly the frame named by
    [animationId] pending and the resize listener registered, or it is off:
    never started, or torn down. *)
Inductive phase (w : World) : Prop :=
| running (id : nat) :
    cleanup w = true -> raf_pending w = [id] -> animationId w = Some id ->
    resize_listener w = true -> phase w
| off :
    cleanup w = false -> raf_pending w = [] -> resize_listener w = false ->
    phase w.

End LifetimeDefs.

(** [!canvas], or [!ctx] once the canvas is there. *)
Definition surface_unavailable `{Number} (current : option CanvasElement) : bool :=
  match current with
  | None => true
  | Some el => negb (has_2d_context el)
  end.

Section InactiveDefs.
Context `{N : Number}.

(** Nothing of the animation exists. *)
Definition inactive (g : RandomSource) (w : World) : Prop :=
  particles w = [] /\ ctx_log w = [] /\ raf_pending w = [] /\
  resize_listener w = false /\ cleanup w = false /\ animationId w = None /\
  random w = g.

End InactiveDefs.

Section CollectionDefs.
Context `{N : Number}.

(** The array right after the creation loop of an activation on [el]. *)
Definition created (el : CanvasElement) (g : RandomSource) : list Particle :=
  (create_particles particleCount
     {| width := offsetWidth el; height := offsetHeight el |} g []).1.

(** The random source once the creation loop has made its draws. *)
Definition after_creation (g : RandomSource) : RandomSource :=
  {| draws := draws g; cursor := cursor g + 5 * particleCount |}.

(** What no event changes: the radii, in order, and the random source. *)
Definition same_particles (el : CanvasElement) (g : RandomSource) (w : World) : Prop :=
  map size (particles w) = map size (created el g) /\
  random w = after_creation g.

End CollectionDefs.

(** The scenario of the two sections: "concepts" is reported in view, then
    out of view; "features" is never reported in view. *)
Definition two_sections `{Number} : list Event :=
  [ Intersection [ {| target_id := "concepts"; isIntersecting := true |};
                   {| target_id := "features"; isIntersecting := false |} ];
    AnimationFrame;
    Intersection [ {| target_id := "concepts"; isIntersecting := false |} ] ].

Section CreationDefs.
Context `{N : Number}.

(** Every draw is 0.5. *)
Definition halves : RandomSource :=
  {| draws := fun _ => dec 5 1; cursor := 0 |}.

(** A canvas laid out with no width. *)
Definition flat_canvas : CanvasElement :=
  {| offsetWidth := of_Z 0; offsetHeight := of_Z 600; has_2d_context := true |}.

End CreationDefs.

(** On a surface of width 0, with every draw equal to 0.5, none of the
    created particles has its x strictly below the width. *)
Definition none_below_width (N : Number) : Prop :=
  (dec 5 1 <? of_Z 0)%js = false /\ (dec 5 1 <? of_Z 1)%js = true /\
  length (created flat_canvas halves) = 80 /\
  Forall (fun p => (x p <? offsetWidth flat_canvas)%js = false)
         (created flat_canvas halves).

Section ExactCreationDefs.
#[local] Existing Instance real.
Local Open Scope R_scope.

(** The draws [Math.random] may return. *)
Definition unit_draws (g : RandomSource) : Prop :=
  forall k, 0 <= draws g k < 1.

(** The ranges of a particle created on a surface of the given size. *)
Definition in_ranges (w h : R) (p : Particle) : Prop :=
  (0 <= x p < w) /\ (0 <= y p < h) /\
  (-1/4 <= vx p < 1/4) /\ (-1/4 <= vy p < 1/4) /\
  (1 <= size p < 3).

(** A source whose first five draws are given. *)
Definition five_draws (r1 r2 r3 r4 r5 : R) : RandomSource :=
  {| draws := fun k => nth k [r1; r2; r3; r4; r5] 0; cursor := 0 |}.

End ExactCreationDefs.

(** ** Vocabulary of the further properties *)

Section FurtherDefs.
Context `{N : Number}.
Local Open Scope js_scope.

Definition is_unmount (ev : Event) : bool :=
  match ev with Unmount => true | _ => false end.

Definition is_resize (ev : Event) : bool :=
  match ev with WindowResize _ _ => true | _ => false end.

(** The bounds read by the frames that run during [evs], in order, when the
    animation is running with bounds [c]: a resize replaces the bounds, a
    frame reads them, and nothing runs once the component has unmounted. *)
Fixpoint frames_bounds (c : Canvas) (evs : list Event) : list Canvas :=
  match evs with
  | [] => []
  | AnimationFrame :: evs => c :: frames_bounds c evs
  | WindowResize lw lh :: evs =>
      frames_bounds {| width := lw; height := lh |} evs
  | Intersection _ :: evs => frames_bounds c evs
  | Unmount :: _ => []
  end.

(** The entries that reach the observer's callback during [evs]: those
    delivered before the component unmounts. *)
Fixpoint delivered (evs : list Event) : list Entry :=
  match evs with
  | [] => []
  | Intersection entries :: evs => entries ++ delivered evs
  | Unmount :: _ => []
  | _ :: evs => delivered evs
  end.

(** The pair of positions holds two particles less than 150 apart. *)
Definition close_at (particles : list Particle) (ij : nat * nat) : bool :=
  match particles !! ij.1, particles !! ij.2 with
  | Some p1, Some p2 => distance p1 p2 <? of_Z 150
  | _, _ => false
  end.

(** The opacity of every stroke style set by the calls satisfies [P]. *)
Definition opacities (P : num -> Prop) (calls : list CtxCall) : Prop :=
  Forall (fun call => match call with
                      | SetStrokeStyle _ _ _ alpha => P alpha
                      | _ => True
                      end) calls.

End FurtherDefs.

(** The entry reports the section [id] as intersecting. *)
Definition reports (id : string) (e : Entry) : bool :=
  isIntersecting e && bool_decide (target_id e = id).

(** The class of a section, as the template literal of its [className]
    builds it: the fixed classes, then the shown or the hidden variant. *)
Definition section_className (base : string) (visible : bool) : string :=
  (base ++ (if visible then "opacity-100 translate-y-0"
            else "opacity-0 translate-y-10"))%string.

(** The four animated sections with the fixed part of their class. *)
Definition section_bases : list (string * string) :=
  [ ("concepts", "py-24 px-4 transition-all duration-1000 ");
    ("features", "py-24 px-4 bg-[#0A0A12] transition-all duration-1000 ");
    ("hotkeys", "py-24 px-4 transition-all duration-1000 ");
    ("advanced", "py-24 px-4 bg-[#0A0A12] transition-all duration-1000 ") ].

(** The [id] and [className] the render gives each animated section. *)
Definition render_sections `{Number} (w : World) : list (string * string) :=
  map (fun s => (s.1, section_className s.2 (reads_visible w s.1)))
      section_bases.

(** A canvas of 800 by 600 with a context, in exact arithmetic. *)
Definition canvas_800x600 : @CanvasElement real :=
  @Build_CanvasElement real 800%R 600%R true.

Section TraceDefs.
Context `{N : Number}.
Local Open Scope js_scope.

(** The calls of successive frames reading the given bounds, each frame
    starting from the particles the previous one left. *)
Fixpoint frames_log (bounds : list Canvas) (particles : list Particle)
  : list CtxCall :=
  match bounds with
  | [] => []
  | c :: rest =>
      (frame_in_passes c particles).2 ++
      frames_log rest (frame_in_passes c particles).1
  end.

(** The particle [new Particle()] builds on [c] from five given draws. *)
Definition particle_of_draws (c : Canvas) (r1 r2 r3 r4 r5 : num) : Particle :=
  {| x := r1 * width c;
     y := r2 * height c;
     vx := (r3 - dec 5 1) * dec 5 1;
     vy := (r4 - dec 5 1) * dec 5 1;
     size := r5 * of_Z 2 + of_Z 1 |}.

End TraceDefs.

(** * Properties *)

(** ** Reading the model at the two instances *)

Lemma Rltb_true (a b : R) : Rltb a b = true <-> (a < b)%R.
Proof. unfold Rltb. destruct (Rlt_dec a b); split; intros; try done. Qed.

Lemma Rltb_false (a b : R) : Rltb a b = false <-> (b <= a)%R.
Proof.
  unfold Rltb. destruct (Rlt_dec a b); split; intros; try done; lra.
Qed.

Lemma outside_real_false (v bound : R) :
  @outside real v bound = false <-> (0 <= v <= bound)%R.
Proof.
  unfold outside; cbn. rewrite orb_false_iff, !Rltb_false. tauto.
Qed.

Lemma outside_real_true (v bound : R) :
  @outside real v bound = true <-> (v < 0 \/ bound < v)%R.
Proof.
  unfold outside; cbn. rewrite orb_true_iff, !Rltb_true. tauto.
Qed.

(** ** Particle.update *)

Lemma bounce_scenario_binary64 : bounce_scenario binary64.
Proof. vm_compute. repeat split. Qed.

Lemma bounce_scenario_real : bounce_scenario real.
Proof.
  unfold bounce_scenario, update, particle_at, surface_800x600, dec; cbn.
  change (10 ^ Z.of_nat 1)%Z with 10%Z.
  assert (O1 : @outside real (799 + 5 / 10)%R 800%R = false)
    by (apply outside_real_false; lra).
  assert (O2 : @outside real (7999 / 10 + 5 / 10)%R 800%R = true)
    by (apply outside_real_true; lra).
  rewrite O1, O2. repeat split; lra.
Qed.

(** C1: an update adds the velocity to the position on both axes and leaves
    the sum as the new position, whatever it is (no clamping); it then
    multiplies [vx] by -1 exactly when the new [x] is below 0 or above the
    width, and [vy] likewise against the height.  On the 800x600 surface, in
    binary64 as in exact arithmetic, the particle at x = 799 with vx = 0.5
    goes to 799.5 and keeps vx, and the one at 799.9 goes to 800.4, beyond
    the width, with vx = -0.5. *)
Theorem update_advances_then_inverts :
  (forall (N : Number) (c : Canvas) (p : Particle),
      x (update c p) = (x p + vx p)%js /\
      y (update c p) = (y p + vy p)%js /\
      vx (update c p) =
        (if outside (x p + vx p)%js (width c)
         then (vx p * of_Z (-1))%js else vx p) /\
      vy (update c p) =
        (if outside (y p + vy p)%js (height c)
         then (vy p * of_Z (-1))%js else vy p) /\
      size (update c p) = size p) /\
  bounce_scenario binary64 /\ bounce_scenario real.
Proof.
  split; [| split].
  - intros N c p. unfold update; cbn. repeat split.
  - exact bounce_scenario_binary64.
  - exact bounce_scenario_real.
Qed.

(** ** Bounds *)

Lemma in_bounds_real (c : @Canvas real) (p : @Particle real) :
  in_bounds c p = true <->
  (0 <= x p <= width c)%R /\ (0 <= y p <= height c)%R.
Proof.
  unfold in_bounds.
  rewrite andb_true_iff, !negb_true_iff, !outside_real_false. tauto.
Qed.

(** One axis of [update] in exact arithmetic: a coordinate that is inside now
    or will be after the next addition is so again after the update. *)
Lemma axis_returns (v dv bound : R) :
  @outside real v bound = false \/ @outside real (v + dv)%R bound = false ->
  let v1 := (v + dv)%R in
  let dv1 := if @outside real v1 bound then (dv * -1)%R else dv in
  @outside real v1 bound = false \/ @outside real (v1 + dv1)%R bound = false.
Proof.
  intros H v1 dv1. subst v1 dv1.
  destruct (@outside real (v + dv)%R bound) eqn:E; [right | by left].
  destruct H as [H | H]; [| done].
  replace (v + dv + dv * -1)%R with v by lra. exact H.
Qed.

Section ExactBounds.
#[local] Existing Instance real.

Lemma in_bounds_settled c p : in_bounds c p = true -> settled c p.
Proof.
  unfold in_bounds, settled.
  rewrite andb_true_iff, !negb_true_iff. intros [Hx Hy]. split; by left.
Qed.

Lemma settled_update c p : settled c p -> settled c (update c p).
Proof.
  intros [Hx Hy]. split.
  - exact (axis_returns (x p) (vx p) (width c) Hx).
  - exact (axis_returns (y p) (vy p) (height c) Hy).
Qed.

Lemma settled_iter c p n : settled c p -> settled c (Nat.iter n (update c) p).
Proof. intros H. induction n as [| n IH]; [done |]. cbn. by apply settled_update. Qed.

Lemma axis_overshoot (v dv bound : R) :
  @outside real v bound = false \/ @outside real (v + dv)%R bound = false ->
  (- Rabs dv <= v <= bound + Rabs dv)%R.
Proof.
  rewrite !outside_real_false. intros H.
  pose proof (Rabs_pos dv). pose proof (Rle_abs dv).
  pose proof (Rle_abs (- dv)) as H2. rewrite Rabs_Ropp in H2.
  destruct H; lra.
Qed.

End ExactBounds.

(** C3, as stated, fails: in binary64 and in exact arithmetic alike, the
    particle at (799.9, 300) with velocity (0.5, 0) is within the 800x600
    surface and one update puts it at x = 800.4, outside. *)
Lemma update_leaves_bounds : leaves_bounds binary64 /\ leaves_bounds real.
Proof.
  split.
  - split; vm_compute; reflexivity.
  - destruct bounce_scenario_real as (_ & _ & _ & _ & Hout & _).
    split.
    + apply in_bounds_real. unfold dec; cbn.
      change (10 ^ Z.of_nat 1)%Z with 10%Z. lra.
    + unfold in_bounds. rewrite Hout. reflexivity.
Qed.

Section ExactOvershoot.
#[local] Existing Instance real.

(** C3, amended (exact arithmetic, bounds unchanged): a particle that starts
    within the bounds is, after any number of updates and on each axis,
    within the bounds or back within them after the next update, so it is
    never outside for two updates in a row; and while outside it is beyond
    the range by at most the length of one step. *)
Theorem update_overshoots_one_step
    (c : @Canvas real) (p : @Particle real) (n : nat) :
  in_bounds c p = true ->
  let q := Nat.iter n (update c) p in
  (outside (x q) (width c) = false \/
   outside (x (update c q)) (width c) = false) /\
  (outside (y q) (height c) = false \/
   outside (y (update c q)) (height c) = false) /\
  (- Rabs (vx q) <= x q <= width c + Rabs (vx q))%R /\
  (- Rabs (vy q) <= y q <= height c + Rabs (vy q))%R.
Proof.
  intros Hin q.
  pose proof (settled_iter c p n (in_bounds_settled c p Hin)) as [Hx Hy].
  fold q in Hx, Hy.
  repeat split; try assumption;
    first [ apply (axis_overshoot _ _ _ Hx) | apply (axis_overshoot _ _ _ Hy) ].
Qed.

Lemma update_overshoots_one_step_witness :
  let c := @surface_800x600 real in
  let p := @particle_at real (7999 / 10)%R in
  in_bounds c p = true /\
  (outside (x (update c p)) (width c) = false \/
   outside (x (update c (update c p))) (width c) = false).
Proof.
  intros c p.
  assert (Hin : in_bounds c p = true)
    by (apply in_bounds_real; cbn; lra).
  split; [exact Hin |].
  exact (proj1 (update_overshoots_one_step c p 1 Hin)).
Defined.

End ExactOvershoot.

(** ** Sequences of updates, with resizes *)

Section Runs.
Context `{N : Number}.

Lemma coord_update a c p :
  coord a (update c p) = (coord a p + speed a p)%js.
Proof. by destruct a. Qed.

Lemma speed_update a c p :
  speed a (update c p) =
  if outside (coord a (update c p)) (extent a c)
  then (speed a p * of_Z (-1))%js else speed a p.
Proof. by destruct a. Qed.

End Runs.

Section ExactRuns.
#[local] Existing Instance real.

Lemma settled_axis (a : Axis) c p :
  settled c p ->
  outside (coord a p) (extent a c) = false \/
  outside (coord a (update c p)) (extent a c) = false.
Proof. intros [Hx Hy]. by destruct a. Qed.

Lemma inversions_are_crossings (a : Axis) c n : forall p,
  settled c p ->
  inversions a (replicate n c) p = crossings a (extent a c) (replicate n c) p.
Proof.
  induction n as [| n IH]; intros p Hs; [done |].
  cbn [replicate inversions crossings].
  rewrite (IH _ (settled_update c p Hs)). f_equal.
  destruct (outside (coord a (update c p)) (extent a c)) eqn:E.
  - destruct (settled_axis a c p Hs) as [-> | H]; [done | congruence].
  - by rewrite andb_false_r.
Qed.

(** After an inversion, the next addition undoes the last one. *)
Lemma there_and_back (a : Axis) c p :
  outside (coord a (update c p)) (extent a c) = true ->
  coord a (update c (update c p)) = coord a p.
Proof.
  intros H1.
  rewrite (coord_update a c (update c p)), speed_update, H1, coord_update.
  cbn. lra.
Qed.

(** A coordinate that is outside, and outside again after one step, only goes
    back and forth between these two positions. *)
Lemma stuck_outside (a : Axis) c n : forall p,
  outside (coord a p) (extent a c) = true ->
  outside (coord a (update c p)) (extent a c) = true ->
  inversions a (replicate n c) p = n /\
  crossings a (extent a c) (replicate n c) p = 0.
Proof.
  induction n as [| n IH]; intros p H0 H1; [done |].
  cbn [replicate inversions crossings]. rewrite H0, H1. cbn [negb andb].
  destruct (IH (update c p) H1) as [-> ->];
    [by rewrite there_and_back | done].
Qed.

(** C4, amended (exact arithmetic).  While the bounds do not change, a
    particle that starts within them has its velocity component inverted
    exactly once per boundary crossing, on each axis.  A particle whose
    coordinate and next coordinate are both outside the bounds (as a
    shrinking resize can leave it) has the component inverted by every
    update, with no crossing at all. *)
Theorem inversions_per_crossing (c : Canvas) (p : Particle) (n : nat) (a : Axis) :
  (in_bounds c p = true ->
   inversions a (replicate n c) p =
   crossings a (extent a c) (replicate n c) p) /\
  (outside (coord a p) (extent a c) = true ->
   outside (coord a (update c p)) (extent a c) = true ->
   inversions a (replicate n c) p = n /\
   crossings a (extent a c) (replicate n c) p = 0).
Proof.
  split.
  - intros Hin. apply inversions_are_crossings, in_bounds_settled, Hin.
  - apply stuck_outside.
Qed.

Lemma drifting_stuck :
  outside (coord X drifting) (extent X surface_400x600) = true /\
  outside (coord X (update surface_400x600 drifting))
          (extent X surface_400x600) = true.
Proof.
  split; apply outside_real_true; unfold dec; cbn;
    change (10 ^ Z.of_nat 2)%Z with 100%Z; lra.
Qed.

Lemma inversions_per_crossing_witness :
  (in_bounds surface_800x600 (particle_at (7999 / 10)%R) = true /\
   inversions X (replicate 2 surface_800x600) (particle_at (7999 / 10)%R) =
   crossings X (of_Z 800) (replicate 2 surface_800x600)
             (particle_at (7999 / 10)%R)) /\
  inversions X (replicate 3 surface_400x600) drifting = 3.
Proof.
  assert (Hin : in_bounds surface_800x600 (particle_at (7999 / 10)%R) = true)
    by (apply in_bounds_real; cbn; lra).
  split; [split; [exact Hin |] |].
  - exact (proj1 (inversions_per_crossing surface_800x600
                    (particle_at (7999 / 10)%R) 2 X) Hin).
  - exact (proj1 (proj2 (inversions_per_crossing surface_400x600 drifting 3 X)
                    (proj1 drifting_stuck) (proj2 drifting_stuck))).
Defined.

Lemma shrink_scenario_real : shrink_scenario real.
Proof.
  destruct drifting_stuck as [H0 H1].
  split; [apply in_bounds_real; cbn; lra |].
  split; [exact (proj1 (stuck_outside X surface_400x600 3 drifting H0 H1)) |].
  unfold after_shrinking.
  change (replicate 3 surface_400x600)
    with (surface_400x600 :: replicate 2 surface_400x600).
  cbn [crossings]. rewrite H1.
  assert (Hin : outside (coord X drifting) (width surface_800x600) = false)
    by (apply outside_real_false; cbn; lra).
  rewrite Hin. cbn [negb andb].
  assert (H2 : outside (coord X (update surface_400x600
                                   (update surface_400x600 drifting)))
                       (extent X surface_400x600) = true)
    by (by rewrite there_and_back).
  by rewrite (proj2 (stuck_outside X surface_400x600 2 _ H1 H2)).
Qed.

End ExactRuns.

(** C4, as stated, fails when a resize is involved.  The particle at
    (600, 300) with velocity (0.25, 0) is within the 800x600 surface; once the
    surface is 400 wide its x is outside at every update, and its vx is
    inverted by each of the next three updates although its x crossed the
    bound at most once; in binary64 and in exact arithmetic alike.  The
    successive values of vx, in binary64, are 0.25, -0.25, 0.25, -0.25. *)
Lemma inversions_exceed_crossings :
  shrink_scenario binary64 /\ shrink_scenario real /\
  map vx [ drifting;
           updates (take 1 after_shrinking) drifting;
           updates (take 2 after_shrinking) drifting;
           updates (take 3 after_shrinking) drifting ]
  = [ @dec binary64 25 2; dec (-25) 2; dec 25 2; dec (-25) 2 ].
Proof.
  split; [| split; [exact shrink_scenario_real |]].
  - repeat split; vm_compute; reflexivity.
  - vm_compute. reflexivity.
Qed.

(** ** Connections *)

Lemma concat_bind {A B} (f : A -> list B) (l : list A) :
  concat (map f l) = l ≫= f.
Proof. induction l as [| a l IH]; [done |]. cbn. by rewrite IH. Qed.

Lemma bind_bind {A B C} (f : A -> list B) (g : B -> list C) (l : list A) :
  (l ≫= f) ≫= g = l ≫= fun a => f a ≫= g.
Proof.
  induction l as [| a l IH]; [done |].
  by rewrite !bind_cons, bind_app, IH.
Qed.

Lemma bind_drop_seq {A B} (f : A -> list B) (l : list A) : forall k,
  drop k l ≫= f = seq k (length l - k) ≫= fun j => from_option f [] (l !! j).
Proof.
  induction l as [| a l IH]; intros k.
  - by rewrite drop_nil.
  - destruct k as [| k].
    + rewrite drop_0. cbn [length]. rewrite Nat.sub_0_r. cbn [seq].
      rewrite !bind_cons. f_equal.
      rewrite <- (drop_0 l) at 1. rewrite (IH 0), Nat.sub_0_r.
      by rewrite <- fmap_S_seq, list_fmap_bind.
    + cbn [drop length]. rewrite (IH k).
      replace (S (length l) - S k) with (length l - k) by lia.
      by rewrite <- (fmap_S_seq k), list_fmap_bind.
Qed.

Section Connections.
Context `{N : Number}.
Local Open Scope js_scope.

Lemma draw_connections_index_pairs (particles : list Particle) :
  draw_connections particles =
  index_pairs (length particles) ≫= connect_at particles.
Proof.
  unfold draw_connections, index_pairs.
  rewrite bind_bind.
  rewrite <- (concat_bind
    (fun i => (pair i <$> seq (S i) (length particles - S i)%nat)
              ≫= connect_at particles)).
  f_equal. apply list_eq. intros i.
  rewrite list_lookup_imap.
  change (map ?f ?l) with (f <$> l). rewrite list_lookup_fmap.
  destruct (particles !! i) as [p1 |] eqn:Hi.
  - rewrite lookup_seq_lt by (eapply lookup_lt_Some; eassumption).
    cbn. f_equal.
    rewrite concat_bind, bind_drop_seq, list_fmap_bind.
    replace (i + 1)%nat with (S i) by lia.
    apply list_bind_ext; [| done]. intros j.
    unfold connect_at; cbn. rewrite Hi. by destruct (particles !! j).
  - rewrite lookup_seq_ge by (by apply lookup_ge_None). done.
Qed.

End Connections.

Lemma index_pairs_elem (n i j : nat) :
  (i, j) ∈ index_pairs n <-> i < j < n.
Proof.
  unfold index_pairs. rewrite list_elem_of_bind. split.
  - intros (i' & Hj & Hi). apply list_elem_of_fmap in Hj as (j' & [= -> ->] & Hj).
    apply elem_of_seq in Hj. lia.
  - intros H. exists i. split.
    + apply list_elem_of_fmap. exists j. split; [done |].
      apply elem_of_seq. lia.
    + apply elem_of_seq. lia.
Qed.

Lemma index_pairs_NoDup (n : nat) : NoDup (index_pairs n).
Proof.
  unfold index_pairs. apply NoDup_bind.
  - intros i1 i2 [i j] _ _ H1 H2.
    apply list_elem_of_fmap in H1 as (? & [= -> _] & _).
    apply list_elem_of_fmap in H2 as (? & [= -> _] & _). done.
  - intros i _. apply NoDup_fmap_2; [| apply NoDup_seq].
    intros ?? [=]. done.
  - apply NoDup_seq.
Qed.

(** C2: the connection pass of a frame applies the callback to the pairs of
    positions [(i, j)] with [i < j] of the particle array, each exactly once
    and to no other pair; for a pair at distance [d] the callback draws one
    line of opacity [1 - d / 150] when [d < 150] and makes no call at all
    otherwise.  In binary64, two particles 75 apart get a line of opacity 0.5
    and two particles 150 apart get none. *)
Theorem connections_within_150 :
  (forall (N : Number) (particles : list Particle),
      draw_connections particles =
        index_pairs (length particles) ≫= connect_at particles /\
      NoDup (index_pairs (length particles)) /\
      (forall i j, (i, j) ∈ index_pairs (length particles) <->
                   i < j < length particles)) /\
  (forall (N : Number) (p1 p2 : Particle),
      connect p1 p2 =
        if (distance p1 p2 <? of_Z 150)%js
        then line p1 p2 (of_Z 1 - distance p1 p2 / of_Z 150)%js
        else []) /\
  (@distance binary64 at_origin (on_x_axis 75) = of_Z 75 /\
   @draw_connections binary64 [at_origin; on_x_axis 75] =
     line at_origin (on_x_axis 75) (dec 5 1)) /\
  (@distance binary64 at_origin (on_x_axis 150) = of_Z 150 /\
   @draw_connections binary64 [at_origin; on_x_axis 150] = []).
Proof.
  split; [| split; [| split]].
  - intros N particles. split; [| split].
    + apply draw_connections_index_pairs.
    + apply index_pairs_NoDup.
    + intros i j. apply index_pairs_elem.
  - intros N p1 p2. reflexivity.
  - split; vm_compute; reflexivity.
  - split; vm_compute; reflexivity.
Qed.

(** ** One frame *)

Section Frame.
Context `{N : Number}.

Lemma update_and_draw_passes (c : Canvas) (particles : list Particle) :
  forall log,
    update_and_draw c particles log =
    (map (update c) particles,
     log ++ concat (map draw (map (update c) particles))).
Proof.
  induction particles as [| p rest IH]; intros log; cbn [update_and_draw map concat].
  - by rewrite app_nil_r.
  - rewrite IH. by rewrite <- app_assoc.
Qed.

Lemma animate_frame (w : World) :
  animate w =
  set_animationId (Some (raf_next w))
    (set_raf (raf_pending w ++ [raf_next w]) (S (raf_next w))
       (set_ctx_log (ctx_log w ++ (frame_in_passes (canvas w) (particles w)).2)
          (set_particles (frame_in_passes (canvas w) (particles w)).1 w))).
Proof.
  unfold animate. rewrite update_and_draw_passes.
  unfold frame_in_passes, overlay, requestAnimationFrame; cbn.
  by rewrite <- !app_assoc.
Qed.

End Frame.

(** C10: the loop of [animate] that updates and draws one particle after the
    other does what two separate passes do.  Whatever calls were logged
    before, it leaves every particle updated and appends the circles of the
    updated particles, in order; and a whole frame leaves the particles
    advanced and appends the overlay, the circles at the advanced positions
    and the connections between the advanced positions. *)
Theorem interleaved_loop_is_two_passes :
  forall (N : Number) (w : World),
    update_and_draw (canvas w) (particles w) (ctx_log w) =
      (map (update (canvas w)) (particles w),
       ctx_log w ++
       concat (map draw (map (update (canvas w)) (particles w)))) /\
    particles (animate w) = (frame_in_passes (canvas w) (particles w)).1 /\
    ctx_log (animate w) =
      ctx_log w ++ (frame_in_passes (canvas w) (particles w)).2 /\
    canvas (animate w) = canvas w.
Proof.
  intros N w. split; [apply update_and_draw_passes |].
  rewrite animate_frame. done.
Qed.

(** ** The life of the component *)

Section Lifetime.
Context `{N : Number}.

Lemma Particle_new_next (c : Canvas) (g : RandomSource) :
  Particle_new c g =
  ((Particle_new c g).1, {| draws := draws g; cursor := 5 + cursor g |}).
Proof. reflexivity. Qed.

Lemma create_particles_spec (c : Canvas) (g : RandomSource) (todo : nat) :
  forall k acc,
    create_particles todo c {| draws := draws g; cursor := k |} acc =
    (acc ++ map (fun i => (Particle_new c {| draws := draws g;
                                             cursor := k + 5 * i |}).1)
                (seq 0 todo),
     {| draws := draws g; cursor := k + 5 * todo |}).
Proof.
  induction todo as [| todo IH]; intros k acc.
  - cbn. rewrite app_nil_r. do 2 f_equal. lia.
  - cbn [create_particles]. rewrite Particle_new_next, IH, <- app_assoc.
    f_equal.
    + f_equal. cbn [app seq map]. f_equal.
      * by replace (k + 5 * 0) with k by lia.
      * rewrite <- fmap_S_seq. change (map ?f ?l) with (f <$> l).
        rewrite <- list_fmap_compose. apply list_fmap_ext. intros _ i _.
        unfold compose; cbn [cursor].
        by replace (5 + k + 5 * i) with (k + 5 * S i) by lia.
    + cbn [cursor]. f_equal. lia.
Qed.

Lemma step_AnimationFrame_running (w : World) (id : nat) :
  raf_pending w = [id] ->
  step w AnimationFrame = animate (set_raf [] (raf_next w) w).
Proof. intros H. cbn. by rewrite H. Qed.

Lemma step_off (w : World) (ev : Event) :
  cleanup w = false -> raf_pending w = [] -> resize_listener w = false ->
  observing w = false ->
  step w ev = w.
Proof.
  intros Hc Hp Hr Ho. destruct w; cbn in *; subst.
  destruct ev; reflexivity.
Qed.

Lemma particle_cleanup_cancels (w : World) (id : nat) :
  raf_pending w = [id] -> animationId w = Some id ->
  raf_pending (particle_cleanup w) = [].
Proof.
  intros Hp Ha. unfold particle_cleanup, cancelAnimationFrame.
  cbn [set_resize_listener animationId raf_pending]. rewrite Ha.
  cbn [set_raf raf_pending]. rewrite Hp.
  rewrite filter_cons, filter_nil. by rewrite decide_False by (intros H; by apply H).
Qed.

Lemma particle_cleanup_unlistens (w : World) :
  resize_listener (particle_cleanup w) = false.
Proof.
  unfold particle_cleanup, cancelAnimationFrame.
  cbn [set_resize_listener animationId]. by destruct (animationId w).
Qed.

Lemma phase_initial g : phase (initial g).
Proof. by apply off. Qed.

Lemma phase_particle_effect current g : phase (particle_effect current (initial g)).
Proof.
  destruct current as [el |]; [| apply phase_initial].
  unfold particle_effect. destruct (has_2d_context el); [| apply phase_initial].
  destruct (create_particles _ _ _ _) as [ps g'].
  rewrite animate_frame. by eapply running.
Qed.

Lemma phase_mount current g : phase (mount current g).
Proof.
  unfold mount, observer_effect.
  destruct (phase_particle_effect current g) as [id ? ? ? ? | ? ? ?].
  - by eapply running.
  - by apply off.
Qed.

Lemma phase_step w ev : phase w -> phase (step w ev).
Proof.
  intros Hw. destruct ev as [| lw lh | entries |].
  - destruct Hw as [id Hc Hp Ha Hr | Hc Hp Hr].
    + rewrite (step_AnimationFrame_running w id Hp), animate_frame.
      by eapply running.
    + cbn. rewrite Hp. cbn. by apply off.
  - cbn. destruct Hw as [id Hc Hp Ha Hr | Hc Hp Hr]; rewrite Hr.
    + by eapply running.
    + by apply off.
  - cbn. destruct (observing w); [| done].
    destruct Hw as [id Hc Hp Ha Hr | Hc Hp Hr].
    + by eapply running.
    + by apply off.
  - cbn. destruct Hw as [id Hc Hp Ha Hr | Hc Hp Hr]; rewrite Hc.
    + apply off; [done | |].
      * apply (particle_cleanup_cancels w id Hp Ha).
      * apply particle_cleanup_unlistens.
    + by apply off.
Qed.

Lemma phase_run evs : forall w, phase w -> phase (run w evs).
Proof.
  induction evs as [| ev evs IH]; intros w Hw; [done |].
  cbn. apply IH, phase_step, Hw.
Qed.

End Lifetime.

Section Teardown.
Context `{N : Number}.

Lemma run_app (w : World) (evs1 evs2 : list Event) :
  run w (evs1 ++ evs2) = run (run w evs1) evs2.
Proof. apply foldl_app. Qed.

Lemma unmount_turns_off (w : World) :
  phase w ->
  let w' := step w Unmount in
  cleanup w' = false /\ raf_pending w' = [] /\ resize_listener w' = false /\
  observing w' = false.
Proof.
  intros Hw w'.
  assert (Hc : cleanup w' = false) by (subst w'; cbn; by destruct (cleanup w) eqn:E).
  assert (Ho : observing w' = false) by done.
  destruct (phase_step w Unmount Hw) as [id Hc' _ _ _ | _ Hp Hr].
  - subst w'. congruence.
  - done.
Qed.

Lemma run_off (evs : list Event) (w : World) :
  cleanup w = false -> raf_pending w = [] -> resize_listener w = false ->
  observing w = false ->
  run w evs = w.
Proof.
  intros Hc Hp Hr Ho. induction evs as [| ev evs IH]; [done |].
  cbn. by rewrite (step_off w ev Hc Hp Hr Ho).
Qed.

End Teardown.

(** C9: whatever happened before, unmounting leaves no frame pending, no
    resize listener and a disconnected observer; and from then on no event,
    be it an animation frame, a resize or a delivery of intersection entries,
    changes anything: the particles, the calls received by the context and
    the visibility flags stay what they were at teardown. *)
Theorem nothing_runs_after_teardown :
  forall (N : Number) (current : option CanvasElement) (g : RandomSource)
         (before after : list Event),
    let w := run (mount current g) (before ++ [Unmount]) in
    raf_pending w = [] /\ resize_listener w = false /\ observing w = false /\
    run w after = w /\
    particles (run w after) = particles w /\
    ctx_log (run w after) = ctx_log w /\
    isVisible (run w after) = isVisible w.
Proof.
  intros N current g before after w.
  assert (Hph : phase (run (mount current g) before))
    by apply phase_run, phase_mount.
  destruct (unmount_turns_off _ Hph) as (Hc & Hp & Hr & Ho).
  assert (Hw : w = step (run (mount current g) before) Unmount)
    by (subst w; by rewrite run_app).
  rewrite <- Hw in Hc, Hp, Hr, Ho.
  rewrite (run_off after w Hc Hp Hr Ho). done.
Qed.

(** ** Activation without a surface *)

Section Inactive.
Context `{N : Number}.

Lemma inactive_step g w ev : inactive g w -> inactive g (step w ev).
Proof.
  intros (Hps & Hl & Hp & Hr & Hc & Ha & Hg).
  destruct w; cbn in *; subst.
  destruct ev as [| lw lh | entries |]; cbn; [done | done | | done].
  by destruct observing0.
Qed.

Lemma inactive_run g evs : forall w, inactive g w -> inactive g (run w evs).
Proof.
  induction evs as [| ev evs IH]; intros w Hw; [done |].
  cbn. apply IH, inactive_step, Hw.
Qed.

End Inactive.

(** C8: when the canvas is not mounted, or gives no 2D context, the first
    effect changes nothing and returns no cleanup: no particle is created
    (no random number is drawn), nothing is drawn, no frame is requested and
    no resize listener is registered; and this stays so whatever events
    follow.  The effect has no failing path: it returns. *)
Theorem no_surface_no_animation :
  forall (N : Number) (current : option CanvasElement) (g : RandomSource),
    surface_unavailable current = true ->
    particle_effect current (initial g) = initial g /\
    forall evs : list Event,
      let w := run (mount current g) evs in
      particles w = [] /\ ctx_log w = [] /\ raf_pending w = [] /\
      resize_listener w = false /\ cleanup w = false /\ random w = g.
Proof.
  intros N current g Hno.
  assert (He : particle_effect current (initial g) = initial g).
  { destruct current as [el |]; [| done]. cbn in Hno.
    unfold particle_effect. by destruct (has_2d_context el). }
  split; [exact He |]. intros evs w.
  assert (Hw : inactive g w).
  { apply inactive_run. unfold mount. rewrite He. by repeat split. }
  destruct Hw as (? & ? & ? & ? & ? & _ & ?). done.
Qed.

Lemma no_surface_no_animation_witness :
  let g := {| draws := fun _ => @dec binary64 5 1; cursor := 0 |} in
  let w := run (mount None g) [AnimationFrame; WindowResize (of_Z 800) (of_Z 600)] in
  particles w = [] /\ ctx_log w = [] /\ raf_pending w = [].
Proof.
  intros g w.
  destruct (proj2 (no_surface_no_animation binary64 None g eq_refl)
              [AnimationFrame; WindowResize (of_Z 800) (of_Z 600)])
    as (H1 & H2 & H3 & _).
  exact (conj H1 (conj H2 H3)).
Defined.

(** ** The particle collection *)

Section Collection.
Context `{N : Number}.

Lemma create_particles_from (c : Canvas) (g : RandomSource) (todo : nat) :
  create_particles todo c g [] =
  (map (fun i => (Particle_new c {| draws := draws g;
                                    cursor := cursor g + 5 * i |}).1)
       (seq 0 todo),
   {| draws := draws g; cursor := cursor g + 5 * todo |}).
Proof.
  destruct g as [d k].
  exact (create_particles_spec c {| draws := d; cursor := k |} todo k []).
Qed.

Lemma created_length el g : length (created el g) = 80.
Proof.
  unfold created. rewrite create_particles_from. cbn [fst].
  by rewrite length_map, length_seq.
Qed.

Lemma sizes_update (c : Canvas) (ps : list Particle) :
  map size (map (update c) ps) = map size ps.
Proof. rewrite map_map. by apply map_ext. Qed.

Lemma same_particles_animate el g w :
  same_particles el g w -> same_particles el g (animate w).
Proof.
  intros [Hs Hg]. rewrite animate_frame. split; [| done].
  cbn. by rewrite sizes_update.
Qed.

Lemma same_particles_frames el g (ids : list nat) : forall w,
  same_particles el g w ->
  same_particles el g (foldl (fun w _ => animate w) w ids).
Proof.
  induction ids as [| id ids IH]; intros w Hw; [done |].
  cbn. apply IH, same_particles_animate, Hw.
Qed.

Lemma same_particles_step el g w ev :
  same_particles el g w -> same_particles el g (step w ev).
Proof.
  intros Hw. destruct ev as [| lw lh | entries |]; cbn.
  - by apply same_particles_frames.
  - by destruct (resize_listener w).
  - by destruct (observing w).
  - destruct Hw as [Hs Hg]. unfold particle_cleanup, cancelAnimationFrame.
    destruct (cleanup w), (animationId w); exact (conj Hs Hg).
Qed.

Lemma same_particles_run el g evs : forall w,
  same_particles el g w -> same_particles el g (run w evs).
Proof.
  induction evs as [| ev evs IH]; intros w Hw; [done |].
  cbn. apply IH, same_particles_step, Hw.
Qed.

Lemma same_particles_mount el g :
  has_2d_context el = true -> same_particles el g (mount (Some el) g).
Proof.
  intros Hctx. unfold mount, observer_effect, particle_effect. rewrite Hctx.
  cbn [resizeCanvas set_canvas set_resize_listener canvas random initial].
  unfold same_particles, created. rewrite create_particles_from.
  cbv beta iota. rewrite animate_frame.
  cbn [particles random set_observing set_cleanup set_animationId set_raf
       set_ctx_log set_particles set_random frame_in_passes fst].
  split; [apply sizes_update | reflexivity].
Qed.

Lemma frame_advances (w : World) :
  phase w ->
  particles (step w AnimationFrame) =
  if cleanup w then map (update (canvas w)) (particles w) else particles w.
Proof.
  intros [id Hc Hp Ha Hr | Hc Hp Hr]; rewrite Hc.
  - rewrite (step_AnimationFrame_running w id Hp), animate_frame. done.
  - cbn. by rewrite Hp.
Qed.

(** A resize changes the bounds the next frame reads, and nothing of the
    particles: the frame that follows updates each of them against the new
    size. *)
Lemma resize_then_frame (w : World) (lw lh : num) :
  phase w -> cleanup w = true ->
  particles (run w [WindowResize lw lh; AnimationFrame]) =
  map (update {| width := lw; height := lh |}) (particles w).
Proof.
  intros [id Hc Hp Ha Hr | Hc Hp Hr] Hcl; [| congruence].
  cbn [run foldl]. cbn [step]. rewrite Hr.
  change (step ?w0 AnimationFrame) with
    (foldl (fun w _ => animate w) (set_raf [] (raf_next w0) w0) (raf_pending w0)).
  cbn [resizeCanvas set_canvas raf_pending]. rewrite Hp. cbn [foldl].
  by rewrite animate_frame.
Qed.

End Collection.

(** C6: an activation on a canvas with a context creates 80 particles, from
    400 draws of the random source.  Whatever events follow, the array holds
    80 particles with the radii of the created ones, in the same order, and
    no further random number is drawn, so none is created later; a frame of
    the running animation replaces each particle by its update and a frame
    after teardown leaves the array alone. *)
Theorem eighty_particles :
  forall (N : Number) (el : CanvasElement) (g : RandomSource)
         (evs : list Event),
    has_2d_context el = true ->
    let w := run (mount (Some el) g) evs in
    length (created el g) = 80 /\
    length (particles w) = 80 /\
    map size (particles w) = map size (created el g) /\
    random w = {| draws := draws g; cursor := cursor g + 400 |} /\
    particles (step w AnimationFrame) =
      (if cleanup w then map (update (canvas w)) (particles w)
       else particles w) /\
    length (particles (step w AnimationFrame)) = 80.
Proof.
  intros N el g evs Hctx w.
  destruct (same_particles_run el g evs _ (same_particles_mount el g Hctx))
    as [Hs Hg]. fold w in Hs, Hg.
  assert (Hlen : length (particles w) = 80).
  { rewrite <- (length_map size), Hs, length_map. apply created_length. }
  assert (Hph : phase w) by apply phase_run, phase_mount.
  pose proof (frame_advances w Hph) as Hf.
  split; [apply created_length |].
  split; [exact Hlen |].
  split; [exact Hs |].
  split; [exact Hg |].
  split; [exact Hf |].
  rewrite Hf. destruct (cleanup w); [| exact Hlen].
  rewrite length_map. exact Hlen.
Qed.

Lemma eighty_particles_witness :
  let el := {| offsetWidth := @of_Z binary64 800; offsetHeight := of_Z 600;
               has_2d_context := true |} in
  let g := {| draws := fun _ => @dec binary64 5 1; cursor := 0 |} in
  length (particles (run (mount (Some el) g)
                         [AnimationFrame; WindowResize (of_Z 400) (of_Z 600);
                          AnimationFrame; Unmount; AnimationFrame])) = 80.
Proof.
  intros el g.
  exact (proj1 (proj2 (eighty_particles binary64 el g
                         [AnimationFrame; WindowResize (of_Z 400) (of_Z 600);
                          AnimationFrame; Unmount; AnimationFrame] eq_refl))).
Defined.

(** ** The reveal observer *)

Section Reveal.
Context `{N : Number}.

Lemma flag_on_entry_mono (m : gmap string bool) (e : Entry) (id : string) :
  flag m id = true -> flag (on_entry m e) id = true.
Proof.
  unfold on_entry, flag. destruct (isIntersecting e); [| done].
  destruct (decide (target_id e = id)) as [-> | Hne].
  - by rewrite lookup_insert_eq.
  - by rewrite lookup_insert_ne.
Qed.

Lemma flag_callback_mono (entries : list Entry) (id : string) : forall m,
  flag m id = true -> flag (foldl on_entry m entries) id = true.
Proof.
  induction entries as [| e entries IH]; intros m Hm; [done |].
  cbn. by apply IH, flag_on_entry_mono.
Qed.

Lemma isVisible_frames (ids : list nat) : forall w : World,
  isVisible (foldl (fun w _ => animate w) w ids) = isVisible w.
Proof.
  induction ids as [| i ids IH]; intros w; [done |].
  cbn. rewrite IH. by rewrite animate_frame.
Qed.

Lemma reads_visible_step_mono (w : World) (ev : Event) (id : string) :
  reads_visible w id = true -> reads_visible (step w ev) id = true.
Proof.
  intros Hw. destruct ev as [| lw lh | entries |].
  - unfold reads_visible in *. cbn. by rewrite isVisible_frames.
  - cbn. by destruct (resize_listener w).
  - cbn. destruct (observing w); [| done].
    by apply flag_callback_mono.
  - cbn. unfold particle_cleanup, cancelAnimationFrame.
    by destruct (cleanup w), (animationId w).
Qed.

Lemma absent_on_entry (m : gmap string bool) (e : Entry) (id : string) :
  (isIntersecting e = true -> target_id e ≠ id) ->
  m !! id = None -> on_entry m e !! id = None.
Proof.
  intros He Hm. unfold on_entry.
  destruct (isIntersecting e); [| done].
  rewrite lookup_insert_ne; [done | by apply He].
Qed.

Lemma absent_callback (entries : list Entry) (id : string) : forall m,
  (forall e, e ∈ entries -> isIntersecting e = true -> target_id e ≠ id) ->
  m !! id = None -> foldl on_entry m entries !! id = None.
Proof.
  induction entries as [| e entries IH]; intros m He Hm; [done |].
  cbn. apply IH.
  - intros e' ?. apply He. by apply list_elem_of_further.
  - apply absent_on_entry; [| done]. apply He, list_elem_of_here.
Qed.

Lemma absent_step (w : World) (ev : Event) (id : string) :
  (forall entries e, ev = Intersection entries -> e ∈ entries ->
                     isIntersecting e = true -> target_id e ≠ id) ->
  isVisible w !! id = None -> isVisible (step w ev) !! id = None.
Proof.
  intros Hev Hw. destruct ev as [| lw lh | entries |].
  - cbn. by rewrite isVisible_frames.
  - cbn. by destruct (resize_listener w).
  - cbn. destruct (observing w); [| done].
    cbn. apply absent_callback; [| done]. intros e. by apply Hev.
  - cbn. unfold particle_cleanup, cancelAnimationFrame.
    by destruct (cleanup w), (animationId w).
Qed.

Lemma isVisible_mount current g : isVisible (mount current g) = ∅.
Proof.
  unfold mount, observer_effect, particle_effect.
  destruct current as [el |]; [| done].
  destruct (has_2d_context el); [| done].
  destruct (create_particles _ _ _ _) as [ps g']. by rewrite animate_frame.
Qed.

End Reveal.

(** C5: a flag that reads true keeps reading true whatever events follow
    (entries that report the section out of view, frames, resizes,
    unmounting); and the flag of a section for which no delivered entry has
    [isIntersecting] set (the browser sets it from the 0.1 threshold of the
    observer) reads false, from the mount on and after any events. *)
Theorem visibility_flags_only_rise :
  forall (N : Number),
    (forall (w : World) (evs : list Event) (id : string),
        reads_visible w id = true -> reads_visible (run w evs) id = true) /\
    (forall (current : option CanvasElement) (g : RandomSource)
            (evs : list Event) (id : string),
        id ∈ sections ->
        (forall entries e, Intersection entries ∈ evs -> e ∈ entries ->
                           isIntersecting e = true -> target_id e ≠ id) ->
        reads_visible (run (mount current g) evs) id = false).
Proof.
  intros N. split.
  - intros w evs. revert w.
    induction evs as [| ev evs IH]; intros w id Hw; [done |].
    cbn. by apply IH, reads_visible_step_mono.
  - intros current g evs id _ Hevs.
    assert (H : isVisible (run (mount current g) evs) !! id = None).
    { assert (H0 : isVisible (mount current g) !! id = None)
        by (by rewrite isVisible_mount).
      revert H0 Hevs. generalize (mount current g).
      induction evs as [| ev evs IH]; intros w Hw Hevs; [done |].
      cbn. apply IH.
      - apply absent_step; [| done].
        intros entries e -> He. eapply Hevs; [apply list_elem_of_here | done].
      - intros entries e Hin. apply Hevs. by apply list_elem_of_further. }
    unfold reads_visible, flag. by rewrite H.
Qed.

Lemma visibility_flags_only_rise_witness :
  let g := {| draws := fun _ => @dec binary64 5 1; cursor := 0 |} in
  let w := run (mount None g) (take 1 two_sections) in
  (reads_visible w "concepts" = true /\
   reads_visible (run w (drop 1 two_sections)) "concepts" = true) /\
  reads_visible (run (mount None g) two_sections) "features" = false.
Proof.
  intros g w.
  assert (Hw : reads_visible w "concepts" = true) by (vm_compute; reflexivity).
  split; [split; [exact Hw |] |].
  - exact (proj1 (visibility_flags_only_rise binary64) w
             (drop 1 two_sections) "concepts" Hw).
  - apply (proj2 (visibility_flags_only_rise binary64) None g two_sections).
    { unfold sections. rewrite !elem_of_cons. right. by left. }
    intros entries e Hin He Hint.
    unfold two_sections in Hin.
    rewrite !elem_of_cons, elem_of_nil in Hin.
    destruct Hin as [[= ->] | [[=] | [[= ->] | []]]];
      rewrite !elem_of_cons, elem_of_nil in He.
    + destruct He as [-> | [-> | []]]; cbn in *; discriminate.
    + destruct He as [-> | []]; cbn in *; discriminate.
Defined.

(** ** The created particles *)

Section Creation.
Context `{N : Number}.

Lemma created_lookup (el : CanvasElement) (g : RandomSource) (i : nat)
    (p : Particle) :
  created el g !! i = Some p <->
  i < particleCount /\
  p = (Particle_new {| width := offsetWidth el; height := offsetHeight el |}
                    {| draws := draws g; cursor := cursor g + 5 * i |}).1.
Proof.
  unfold created. rewrite create_particles_from. cbn [fst].
  change (map ?f ?l) with (f <$> l). rewrite list_lookup_fmap.
  destruct (decide (i < particleCount)) as [Hi | Hi].
  - rewrite lookup_seq_lt by done. cbn. split.
    + intros [= <-]. done.
    + intros [_ ->]. done.
  - rewrite lookup_seq_ge by lia. cbn. split; [done | tauto].
Qed.

Lemma flat_canvas_positions :
  Forall (fun p => x p = (dec 5 1 * of_Z 0)%js) (created flat_canvas halves).
Proof.
  apply Forall_lookup. intros i p Hp.
  apply created_lookup in Hp as [_ ->]. reflexivity.
Qed.

End Creation.

(** C7, as stated, fails on a surface with no width (or no height): the draws
    are in [0, 1), yet every one of the 80 created particles has x = 0, which
    is not in the empty range [0, 0).  This is so in binary64 and in exact
    arithmetic. *)
Lemma created_on_flat_canvas :
  none_below_width binary64 /\ none_below_width real.
Proof.
  split.
  - split; [vm_compute; reflexivity |].
    split; [vm_compute; reflexivity |].
    split; [apply created_length |].
    eapply Forall_impl; [apply flat_canvas_positions |].
    intros p ->. vm_compute. reflexivity.
  - split.
    { apply Rltb_false. unfold dec; cbn.
      change (10 ^ Z.of_nat 1)%Z with 10%Z. lra. }
    split.
    { apply Rltb_true. unfold dec; cbn.
      change (10 ^ Z.of_nat 1)%Z with 10%Z. lra. }
    split; [apply created_length |].
    eapply Forall_impl; [apply flat_canvas_positions |].
    intros p ->. apply Rltb_false. cbn. lra.
Qed.

(** In binary64 the radius of a particle can be 3: the largest number below 1
    is a possible draw, and [r * 2 + 1] then rounds to 3. *)
Remark radius_rounds_to_3 :
  let r := 0x1.fffffffffffffp-1%float in
  @js_lt binary64 r (of_Z 1) = true /\
  size (@Particle_new binary64 surface_800x600
          (@Build_RandomSource binary64 (fun _ => r) 0)).1 = @of_Z binary64 3.
Proof. split; vm_compute; reflexivity. Qed.

Section ExactCreation.
#[local] Existing Instance real.
Local Open Scope R_scope.

Lemma five_draws_unit r1 r2 r3 r4 r5 :
  0 <= r1 < 1 -> 0 <= r2 < 1 -> 0 <= r3 < 1 -> 0 <= r4 < 1 -> 0 <= r5 < 1 ->
  unit_draws (five_draws r1 r2 r3 r4 r5).
Proof.
  intros H1 H2 H3 H4 H5 k. cbn.
  do 5 (destruct k as [| k]; [assumption |]). destruct k; cbn; lra.
Qed.

Lemma unit_quotient (q w : R) : 0 < w -> 0 <= q < w -> 0 <= q / w < 1.
Proof.
  intros Hw [H0 H1].
  assert (Hi : 0 < / w) by (apply Rinv_0_lt_compat; lra).
  assert (E : w * / w = 1) by (apply Rinv_r; lra).
  unfold Rdiv. split; nra.
Qed.

Lemma Particle_new_real (c : Canvas) (d : nat -> R) (k : nat) :
  (Particle_new c {| draws := d; cursor := k |}).1 =
  {| x := d k * width c; y := d (k + 1)%nat * height c;
     vx := (d (k + 2)%nat - 5 / 10) * (5 / 10);
     vy := (d (k + 3)%nat - 5 / 10) * (5 / 10);
     size := d (k + 4)%nat * 2 + 1 |}.
Proof.
  unfold Particle_new, Math_random; cbn.
  by replace (k + 1)%nat with (S k) by lia;
     replace (k + 2)%nat with (S (S k)) by lia;
     replace (k + 3)%nat with (S (S (S k))) by lia;
     replace (k + 4)%nat with (S (S (S (S k)))) by lia.
Qed.

(** C7, amended (exact arithmetic): on a surface of positive width and
    height, with draws in [0, 1), every created particle takes five draws of
    its own, one per attribute, and each attribute is the image of its draw
    under the increasing affine map of [0, 1) onto its range: [0, width) and
    [0, height) for the position, [-0.25, 0.25) for each velocity component,
    [1, 3) for the radius.  Every particle with attributes in these ranges
    is the one created from some five draws in [0, 1). *)
Theorem created_in_ranges (el : CanvasElement) (g : RandomSource) :
  unit_draws g -> 0 < offsetWidth el -> 0 < offsetHeight el ->
  (forall (i : nat) (p : Particle),
      created el g !! i = Some p ->
      let r j := draws g (cursor g + 5 * i + j)%nat in
      x p = r 0%nat * offsetWidth el /\
      y p = r 1%nat * offsetHeight el /\
      vx p = -1/4 + r 2%nat * (1/2) /\
      vy p = -1/4 + r 3%nat * (1/2) /\
      size p = 1 + r 4%nat * 2 /\
      in_ranges (offsetWidth el) (offsetHeight el) p) /\
  (forall q : Particle,
      in_ranges (offsetWidth el) (offsetHeight el) q ->
      exists r1 r2 r3 r4 r5,
        unit_draws (five_draws r1 r2 r3 r4 r5) /\
        (Particle_new {| width := offsetWidth el; height := offsetHeight el |}
                      (five_draws r1 r2 r3 r4 r5)).1 = q).
Proof.
  intros Hg Hw Hh. split.
  - intros i p Hp r. apply created_lookup in Hp as [_ ->].
    rewrite Particle_new_real. cbn [x y vx vy size width height].
    pose proof (Hg (cursor g + 5 * i)%nat) as H0.
    pose proof (Hg (cursor g + 5 * i + 1)%nat) as H1.
    pose proof (Hg (cursor g + 5 * i + 2)%nat) as H2.
    pose proof (Hg (cursor g + 5 * i + 3)%nat) as H3.
    pose proof (Hg (cursor g + 5 * i + 4)%nat) as H4.
    subst r. cbn beta. rewrite Nat.add_0_r.
    unfold in_ranges; cbn [x y vx vy size].
    repeat split; try lra; try nra.
  - intros [qx qy qvx qvy qs] (Hx & Hy & Hvx & Hvy & Hs).
    cbn [x y vx vy size] in Hx, Hy, Hvx, Hvy, Hs.
    exists (qx / offsetWidth el), (qy / offsetHeight el),
           (qvx * 2 + 1/2), (qvy * 2 + 1/2), ((qs - 1) / 2).
    assert (Dx : 0 <= qx / offsetWidth el < 1) by (by apply unit_quotient).
    assert (Dy : 0 <= qy / offsetHeight el < 1) by (by apply unit_quotient).
    split.
    + apply five_draws_unit; try assumption; lra.
    + unfold five_draws. rewrite Particle_new_real.
      cbn [Nat.add nth width height].
      f_equal; try lra; unfold Rdiv; rewrite Rmult_assoc, Rinv_l; lra.
Qed.

Lemma halves_unit : unit_draws halves.
Proof.
  intros k. unfold halves, dec; cbn.
  change (10 ^ Z.of_nat 1)%Z with 10%Z. lra.
Qed.

Lemma created_in_ranges_witness :
  let el := {| offsetWidth := 800; offsetHeight := 600;
               has_2d_context := true |} in
  let p := (Particle_new {| width := 800; height := 600 |} halves).1 in
  unit_draws halves /\ 0 < offsetWidth el /\ 0 < offsetHeight el /\
  created el halves !! 0%nat = Some p /\
  in_ranges 800 600 p.
Proof.
  intros el p.
  assert (Hw : 0 < offsetWidth el) by (cbn; lra).
  assert (Hh : 0 < offsetHeight el) by (cbn; lra).
  assert (Hp : created el halves !! 0%nat = Some p).
  { apply created_lookup. split; [unfold particleCount; lia | reflexivity]. }
  split; [exact halves_unit |].
  split; [exact Hw |]. split; [exact Hh |]. split; [exact Hp |].
  destruct (proj1 (created_in_ranges el halves halves_unit Hw Hh) 0%nat p Hp)
    as (_ & _ & _ & _ & _ & H).
  exact H.
Defined.

End ExactCreation.


(** * Further properties *)

(** ** Scheduling *)

Section Scheduling.
Context `{N : Number}.

Lemma cleanup_frames (ids : list nat) : forall w : World,
  cleanup (foldl (fun w _ => animate w) w ids) = cleanup w.
Proof.
  induction ids as [| i ids IH]; intros w; [done |].
  cbn. rewrite IH. by rewrite animate_frame.
Qed.

Lemma cleanup_step (w : World) (ev : Event) :
  cleanup (step w ev) = cleanup w && negb (is_unmount ev).
Proof.
  destruct ev as [| lw lh | entries |]; cbn.
  - by rewrite cleanup_frames, andb_true_r.
  - rewrite andb_true_r. by destruct (resize_listener w).
  - rewrite andb_true_r. by destruct (observing w).
  - rewrite andb_false_r. by destruct (cleanup w) eqn:E.
Qed.

Lemma cleanup_run (evs : list Event) : forall w : World,
  cleanup (run w evs) = cleanup w && negb (existsb is_unmount evs).
Proof.
  induction evs as [| ev evs IH]; intros w; [by rewrite andb_true_r |].
  cbn [run foldl existsb]. fold (run (step w ev) evs).
  rewrite IH, cleanup_step, negb_orb. by rewrite andb_assoc.
Qed.

Lemma cleanup_mount current g :
  cleanup (mount current g) = negb (surface_unavailable current).
Proof.
  unfold mount, observer_effect, particle_effect.
  destruct current as [el |]; [| done]. cbn [surface_unavailable].
  destruct (has_2d_context el); [| done].
  destruct (create_particles _ _ _ _) as [ps g']. by rewrite animate_frame.
Qed.

End Scheduling.

(** X1: the animation runs exactly while the surface was available at the
    mount and the component has not unmounted.  While it runs, exactly one
    frame is pending, the one [animationId] names, and the resize listener
    is registered; otherwise no frame is pending and no listener is
    registered.  Frames never pile up. *)
Theorem one_frame_pending :
  forall (N : Number) (current : option CanvasElement) (g : RandomSource)
         (evs : list Event),
    let w := run (mount current g) evs in
    cleanup w =
      negb (surface_unavailable current) && negb (existsb is_unmount evs) /\
    resize_listener w = cleanup w /\
    raf_pending w =
      (if cleanup w then from_option (fun id => [id]) [] (animationId w)
       else []) /\
    length (raf_pending w) = (if cleanup w then 1 else 0).
Proof.
  intros N current g evs w.
  assert (Hc : cleanup w =
               negb (surface_unavailable current) &&
               negb (existsb is_unmount evs))
    by (subst w; by rewrite cleanup_run, cleanup_mount).
  split; [exact Hc |].
  destruct (phase_run evs _ (phase_mount current g))
    as [id Hcl Hp Ha Hr | Hcl Hp Hr]; fold w in Hcl, Hp, Hr.
  - fold w in Ha. rewrite Hcl, Hp, Ha, Hr. done.
  - rewrite Hcl, Hp, Hr. done.
Qed.

(** ** Trajectories *)

Section Trajectories.
Context `{N : Number}.

Lemma updates_snoc (bounds : list Canvas) (c : Canvas) : forall p,
  updates (bounds ++ [c]) p = update c (updates bounds p).
Proof.
  induction bounds as [| c0 bounds IH]; intros p; [done |].
  cbn. apply IH.
Qed.

Lemma updates_replicate (c : Canvas) (n : nat) : forall p,
  updates (replicate n c) p = Nat.iter n (update c) p.
Proof.
  induction n as [| n IH]; intros p; [done |].
  cbn [replicate updates]. rewrite IH. by rewrite Nat.iter_swap.
Qed.

(** The running animation, from a state whose particles went through the
    updates [done] already. *)
Lemma run_trajectories (start : list Particle) (evs : list Event) :
  forall (w : World) (done : list Canvas),
    phase w -> cleanup w = true ->
    particles w = map (updates done) start ->
    particles (run w evs) =
    map (updates (done ++ frames_bounds (canvas w) evs)) start.
Proof.
  induction evs as [| ev evs IH]; intros w bs Hph Hc Hps.
  - cbn. by rewrite app_nil_r.
  - assert (Hph' : phase (step w ev)) by by apply phase_step.
    destruct Hph as [id _ Hp Ha Hr | Hc' _ _]; [| congruence].
    cbn [run foldl]. fold (run (step w ev) evs).
    destruct ev as [| lw lh | entries |].
    + cbn [frames_bounds].
      assert (Hcan : canvas (step w AnimationFrame) = canvas w)
        by (by rewrite (step_AnimationFrame_running w id Hp), animate_frame).
      rewrite (IH _ (bs ++ [canvas w]) Hph').
      * by rewrite Hcan, <- app_assoc.
      * by rewrite cleanup_step, Hc.
      * rewrite (step_AnimationFrame_running w id Hp), animate_frame.
        cbn [particles set_animationId set_raf set_ctx_log set_particles
             frame_in_passes fst canvas].
        rewrite Hps, map_map. apply map_ext. intros p.
        by rewrite updates_snoc.
    + cbn [frames_bounds].
      assert (Hs : step w (WindowResize lw lh) = resizeCanvas lw lh w)
        by (cbn; by rewrite Hr).
      rewrite (IH _ bs Hph'); [by rewrite Hs | |].
      * by rewrite cleanup_step, Hc.
      * by rewrite Hs.
    + cbn [frames_bounds].
      assert (Hs : particles (step w (Intersection entries)) = particles w
                   /\ canvas (step w (Intersection entries)) = canvas w)
        by (cbn; by destruct (observing w)).
      destruct Hs as [Hs1 Hs2].
      rewrite (IH _ bs Hph'); [by rewrite Hs2 | |].
      * by rewrite cleanup_step, Hc.
      * by rewrite Hs1.
    + cbn [frames_bounds]. rewrite app_nil_r.
      destruct (unmount_turns_off w (running w id Hc Hp Ha Hr))
        as (Hc1 & Hp1 & Hr1 & Ho1).
      rewrite (run_off evs _ Hc1 Hp1 Hr1 Ho1).
      rewrite <- Hps. cbn. rewrite Hc. cbn.
      unfold particle_cleanup, cancelAnimationFrame. by rewrite Ha.
Qed.

Lemma mount_trajectories (el : CanvasElement) (g : RandomSource) :
  has_2d_context el = true ->
  let c := {| width := offsetWidth el; height := offsetHeight el |} in
  canvas (mount (Some el) g) = c /\
  particles (mount (Some el) g) = map (updates [c]) (created el g).
Proof.
  intros Hctx c. unfold mount, observer_effect, particle_effect. rewrite Hctx.
  cbn [resizeCanvas set_canvas set_resize_listener canvas random initial].
  unfold created. fold c.
  destruct (create_particles particleCount c g []) as [ps g'].
  rewrite animate_frame. done.
Qed.

Lemma mount_run_trajectories (el : CanvasElement) (g : RandomSource)
    (evs : list Event) :
  has_2d_context el = true ->
  let c := {| width := offsetWidth el; height := offsetHeight el |} in
  particles (run (mount (Some el) g) evs) =
  map (updates (c :: frames_bounds c evs)) (created el g).
Proof.
  intros Hctx c.
  destruct (mount_trajectories el g Hctx) as [Hcan Hps]. fold c in Hcan, Hps.
  rewrite (run_trajectories (created el g) evs _ [c]).
  - by rewrite Hcan.
  - apply phase_mount.
  - by rewrite cleanup_mount; cbn; rewrite Hctx.
  - exact Hps.
Qed.

End Trajectories.

(** X2: after an activation on a canvas with a context and any events, each
    particle of the array is the created particle of the same position taken
    through one update per frame that ran: the frame of the activation
    itself, then one per animation frame until the component unmounts, each
    reading the size set by the latest resize before it.  Nothing else moves
    a particle. *)
Theorem particles_follow_frames :
  forall (N : Number) (el : CanvasElement) (g : RandomSource)
         (evs : list Event),
    has_2d_context el = true ->
    let c := {| width := offsetWidth el; height := offsetHeight el |} in
    particles (run (mount (Some el) g) evs) =
    map (updates (c :: frames_bounds c evs)) (created el g).
Proof.
  intros N el g evs Hctx c. by apply mount_run_trajectories.
Qed.

Lemma particles_follow_frames_witness :
  let el := {| offsetWidth := @of_Z binary64 800; offsetHeight := of_Z 600;
               has_2d_context := true |} in
  let g := {| draws := fun _ => @dec binary64 5 1; cursor := 0 |} in
  particles (run (mount (Some el) g)
               [AnimationFrame; WindowResize (of_Z 400) (of_Z 600);
                AnimationFrame; Unmount; AnimationFrame]) =
  map (updates [ {| width := of_Z 800; height := of_Z 600 |};
                 {| width := of_Z 800; height := of_Z 600 |};
                 {| width := of_Z 400; height := of_Z 600 |} ])
      (created el g).
Proof.
  intros el g.
  exact (particles_follow_frames binary64 el g
           [AnimationFrame; WindowResize (of_Z 400) (of_Z 600);
            AnimationFrame; Unmount; AnimationFrame] eq_refl).
Defined.

(** ** The visibility record *)

Lemma lookup_on_entry (m : gmap string bool) (e : Entry) (id : string) :
  on_entry m e !! id = if reports id e then Some true else m !! id.
Proof.
  unfold on_entry, reports. destruct (isIntersecting e); [| done].
  cbn. destruct (decide (target_id e = id)) as [-> | Hne].
  - by rewrite lookup_insert_eq, bool_decide_eq_true_2.
  - by rewrite lookup_insert_ne, bool_decide_eq_false_2.
Qed.

Lemma lookup_callback (entries : list Entry) (id : string) :
  forall m : gmap string bool,
    foldl on_entry m entries !! id =
    if existsb (reports id) entries then Some true else m !! id.
Proof.
  induction entries as [| e entries IH]; intros m; [done |].
  cbn. rewrite IH, lookup_on_entry.
  by destruct (reports id e), (existsb (reports id) entries).
Qed.

Lemma existsb_Permutation {A} (f : A -> bool) (l1 l2 : list A) :
  l1 ≡ₚ l2 -> existsb f l1 = existsb f l2.
Proof.
  induction 1 as [| a l1 l2 _ IH | a b l | l1 l2 l3 _ IH1 _ IH2]; cbn.
  - done.
  - by rewrite IH.
  - by destruct (f a), (f b).
  - by rewrite IH1.
Qed.

Section Record.
Context `{N : Number}.

Lemma observing_frames (ids : list nat) : forall w : World,
  observing (foldl (fun w _ => animate w) w ids) = observing w.
Proof.
  induction ids as [| i ids IH]; intros w; [done |].
  cbn. rewrite IH. by rewrite animate_frame.
Qed.

Lemma observing_step (w : World) (ev : Event) :
  observing (step w ev) = observing w && negb (is_unmount ev).
Proof.
  destruct ev as [| lw lh | entries |]; cbn.
  - by rewrite observing_frames, andb_true_r.
  - rewrite andb_true_r. by destruct (resize_listener w).
  - rewrite andb_true_r. by destruct (observing w) eqn:E.
  - by rewrite andb_false_r.
Qed.

Lemma isVisible_step_other (w : World) (ev : Event) :
  (observing w = false \/ forall entries, ev ≠ Intersection entries) ->
  isVisible (step w ev) = isVisible w.
Proof.
  intros H. destruct ev as [| lw lh | entries |]; cbn.
  - by rewrite isVisible_frames.
  - by destruct (resize_listener w).
  - destruct H as [-> | H]; [done |]. by destruct (H entries).
  - unfold particle_cleanup, cancelAnimationFrame.
    by destruct (cleanup w), (animationId w).
Qed.

Lemma isVisible_disconnected (evs : list Event) : forall w : World,
  observing w = false -> isVisible (run w evs) = isVisible w.
Proof.
  induction evs as [| ev evs IH]; intros w Ho; [done |].
  cbn [run foldl]. fold (run (step w ev) evs).
  rewrite IH.
  - apply isVisible_step_other. by left.
  - by rewrite observing_step, Ho.
Qed.

Lemma isVisible_run (id : string) (evs : list Event) : forall w : World,
  observing w = true ->
  isVisible (run w evs) !! id =
  if existsb (reports id) (delivered evs) then Some true
  else isVisible w !! id.
Proof.
  induction evs as [| ev evs IH]; intros w Ho; [done |].
  cbn [run foldl]. fold (run (step w ev) evs).
  destruct ev as [| lw lh | entries |].
  - cbn [delivered]. rewrite IH by (by rewrite observing_step, Ho).
    rewrite isVisible_step_other; [done |]. by right.
  - cbn [delivered]. rewrite IH by (by rewrite observing_step, Ho).
    rewrite isVisible_step_other; [done |]. by right.
  - cbn [delivered]. rewrite IH by (by rewrite observing_step, Ho).
    rewrite existsb_app. cbn [step]. rewrite Ho.
    cbn [observer_callback set_isVisible isVisible].
    rewrite lookup_callback.
    by destruct (existsb (reports id) entries),
                (existsb (reports id) (delivered evs)).
  - cbn [delivered existsb].
    rewrite isVisible_disconnected by (by rewrite observing_step, andb_false_r).
    rewrite isVisible_step_other; [done |]. by right.
Qed.

Lemma observing_mount current g : observing (mount current g) = true.
Proof. done. Qed.

End Record.

(** X3: what one call of the observer's callback does to the record.  A key
    reads [true] afterwards if some entry of the batch reports it as
    intersecting, and is left as it was otherwise; so the order of the
    entries in the batch does not matter, and delivering a batch a second
    time changes nothing. *)
Theorem callback_effect :
  forall (N : Number) (w : World) (entries : list Entry),
    (forall id,
        isVisible (observer_callback entries w) !! id =
        if existsb (reports id) entries then Some true
        else isVisible w !! id) /\
    (forall entries', entries ≡ₚ entries' ->
        observer_callback entries' w = observer_callback entries w) /\
    observer_callback entries (observer_callback entries w) =
    observer_callback entries w.
Proof.
  intros N w entries.
  assert (H1 : forall es id,
             isVisible (observer_callback es w) !! id =
             if existsb (reports id) es then Some true
             else isVisible w !! id)
    by (intros es id; apply lookup_callback).
  split; [apply H1 | split].
  - intros entries' Hperm. unfold observer_callback. f_equal.
    apply map_eq. intros id. rewrite !lookup_callback.
    by rewrite (existsb_Permutation _ _ _ Hperm).
  - unfold observer_callback at 1 3. cbn [isVisible set_isVisible].
    assert (E : foldl on_entry (isVisible (observer_callback entries w)) entries
                = isVisible (observer_callback entries w)).
    { apply map_eq. intros id. rewrite lookup_callback, H1.
      by destruct (existsb (reports id) entries). }
    unfold observer_callback in *. cbn [isVisible set_isVisible] in *.
    rewrite E. by destruct w.
Qed.

Lemma callback_effect_witness :
  let w := @mount binary64 None
             {| draws := fun _ => @dec binary64 5 1; cursor := 0 |} in
  let a := {| target_id := "concepts"; isIntersecting := true |} in
  let b := {| target_id := "features"; isIntersecting := false |} in
  observer_callback [b; a] w = observer_callback [a; b] w.
Proof.
  intros w a b.
  exact (proj1 (proj2 (callback_effect binary64 w [a; b])) [b; a]
           (Permutation_swap b a [])).
Defined.

(** X4: the content of the record at any time.  Whatever the events since the
    mount, a key holds [true] if an entry reporting it as intersecting was
    delivered before the component unmounted, and is absent otherwise: the
    record never holds [false], and nothing delivered after the unmount
    enters it. *)
Theorem record_content :
  forall (N : Number) (current : option CanvasElement) (g : RandomSource)
         (evs : list Event) (id : string),
    isVisible (run (mount current g) evs) !! id =
    if existsb (reports id) (delivered evs) then Some true else None.
Proof.
  intros N current g evs id.
  rewrite isVisible_run by apply observing_mount.
  by rewrite isVisible_mount.
Qed.

(** ** Speeds and positions over a whole run, in exact arithmetic *)

Lemma map_fmap {A B} (f : A -> B) (l : list A) : map f l = f <$> l.
Proof. reflexivity. Qed.

Section ExactWorld.
#[local] Existing Instance real.
Local Open Scope R_scope.

Lemma speed_magnitude_update (a : Axis) c p :
  Rabs (speed a (update c p)) = Rabs (speed a p).
Proof.
  rewrite speed_update.
  destruct (outside (coord a (update c p)) (extent a c)); [| done].
  cbn. replace (speed a p * -1) with (- speed a p) by lra. apply Rabs_Ropp.
Qed.

Lemma speed_magnitude_updates (a : Axis) bounds : forall p,
  Rabs (speed a (updates bounds p)) = Rabs (speed a p).
Proof.
  induction bounds as [| c bounds IH]; intros p; [done |].
  cbn [updates]. by rewrite IH, speed_magnitude_update.
Qed.

Lemma created_real (el : CanvasElement) (g : RandomSource) (q : Particle) :
  unit_draws g -> 0 <= offsetWidth el -> 0 <= offsetHeight el ->
  q ∈ created el g ->
  in_bounds {| width := offsetWidth el; height := offsetHeight el |} q = true /\
  Rabs (vx q) <= 1/4 /\ Rabs (vy q) <= 1/4.
Proof.
  intros Hg Hw Hh Hq.
  apply list_elem_of_lookup in Hq as [i Hq].
  apply created_lookup in Hq as [_ ->].
  rewrite Particle_new_real.
  pose proof (Hg (cursor g + 5 * i)%nat) as H0.
  pose proof (Hg (cursor g + 5 * i + 1)%nat) as H1.
  pose proof (Hg (cursor g + 5 * i + 2)%nat) as H2.
  pose proof (Hg (cursor g + 5 * i + 3)%nat) as H3.
  split; [| split].
  - apply in_bounds_real. cbn [x y width height]. split; split; nra.
  - cbn [vx]. apply Rabs_le. lra.
  - cbn [vy]. apply Rabs_le. lra.
Qed.

Lemma frames_bounds_no_resize (c : Canvas) (evs : list Event) :
  existsb is_resize evs = false ->
  exists k, frames_bounds c evs = replicate k c.
Proof.
  induction evs as [| ev evs IH]; intros H; [by exists 0%nat |].
  cbn in H. apply orb_false_iff in H as [H1 H2].
  destruct ev as [| lw lh | entries |]; cbn [frames_bounds].
  - destruct (IH H2) as [k ->]. by exists (S k).
  - discriminate H1.
  - exact (IH H2).
  - by exists 0%nat.
Qed.

Lemma moved_particle (el : CanvasElement) (g : RandomSource)
    (evs : list Event) (p : Particle) :
  has_2d_context el = true ->
  p ∈ particles (run (mount (Some el) g) evs) ->
  let c := {| width := offsetWidth el; height := offsetHeight el |} in
  exists q, q ∈ created el g /\ p = updates (c :: frames_bounds c evs) q.
Proof.
  intros Hctx Hp c. rewrite (mount_run_trajectories el g evs Hctx) in Hp.
  rewrite map_fmap in Hp.
  apply list_elem_of_fmap in Hp as (q & -> & Hq). by exists q.
Qed.

(** X5: in exact arithmetic an update changes at most the sign of a velocity
    component, so along any sequence of updates, resizes included, its
    magnitude is what it was at creation; with draws in [0, 1), no particle
    of the running component ever moves by more than a quarter of a pixel
    per frame on either axis. *)
Theorem speeds_keep_magnitude :
  (forall (a : Axis) (bounds : list Canvas) (p : Particle),
      Rabs (speed a (updates bounds p)) = Rabs (speed a p)) /\
  (forall (el : CanvasElement) (g : RandomSource) (evs : list Event)
          (p : Particle),
      has_2d_context el = true -> unit_draws g ->
      p ∈ particles (run (mount (Some el) g) evs) ->
      Rabs (vx p) <= 1/4 /\ Rabs (vy p) <= 1/4).
Proof.
  split; [intros a bounds p; apply speed_magnitude_updates |].
  intros el g evs p Hctx Hg Hp.
  destruct (moved_particle el g evs p Hctx Hp) as (q & Hq & ->).
  set (bounds := _ :: frames_bounds _ evs).
  pose proof (speed_magnitude_updates X bounds q) as Sx.
  pose proof (speed_magnitude_updates Y bounds q) as Sy.
  cbn [speed] in Sx, Sy. rewrite Sx, Sy.
  apply list_elem_of_lookup in Hq as [i Hq].
  apply created_lookup in Hq as [_ ->].
  rewrite Particle_new_real. cbn [vx vy].
  pose proof (Hg (cursor g + 5 * i + 2)%nat) as H2.
  pose proof (Hg (cursor g + 5 * i + 3)%nat) as H3.
  split; apply Rabs_le; lra.
Qed.

Lemma first_moved :
  updates [ {| width := 800; height := 600 |} ]
          (Particle_new {| width := 800; height := 600 |} halves).1
  ∈ particles (run (mount (Some canvas_800x600) halves) []).
Proof.
  rewrite (mount_run_trajectories canvas_800x600 halves [] eq_refl).
  rewrite map_fmap.
  apply list_elem_of_fmap. eexists. split; [reflexivity |].
  apply list_elem_of_lookup. exists 0%nat. apply created_lookup.
  split; [unfold particleCount; lia | reflexivity].
Qed.

Lemma speeds_keep_magnitude_witness :
  let p := updates [ {| width := 800; height := 600 |} ]
             (Particle_new {| width := 800; height := 600 |} halves).1 in
  Rabs (vx p) <= 1/4 /\ Rabs (vy p) <= 1/4.
Proof.
  intros p.
  exact (proj2 speeds_keep_magnitude canvas_800x600 halves [] p eq_refl
           halves_unit first_moved).
Defined.

(** X6: in exact arithmetic, as long as no resize happens, every particle of
    the running component stays within a quarter of a pixel of the surface
    it was created on, on both axes, whatever the number of frames. *)
Theorem particles_stay_near_surface :
  forall (el : CanvasElement) (g : RandomSource) (evs : list Event)
         (p : Particle),
    has_2d_context el = true -> unit_draws g ->
    0 <= offsetWidth el -> 0 <= offsetHeight el ->
    existsb is_resize evs = false ->
    p ∈ particles (run (mount (Some el) g) evs) ->
    -1/4 <= x p <= offsetWidth el + 1/4 /\
    -1/4 <= y p <= offsetHeight el + 1/4.
Proof.
  intros el g evs p Hctx Hg Hw Hh Hno Hp.
  destruct (moved_particle el g evs p Hctx Hp) as (q & Hq & ->).
  destruct (created_real el g q Hg Hw Hh Hq) as (Hin & Hvx & Hvy).
  set (c := {| width := offsetWidth el; height := offsetHeight el |}) in *.
  destruct (frames_bounds_no_resize c evs Hno) as [k ->].
  change (c :: replicate k c) with (replicate (S k) c).
  pose proof (speed_magnitude_updates X (replicate (S k) c) q) as Sx.
  pose proof (speed_magnitude_updates Y (replicate (S k) c) q) as Sy.
  rewrite updates_replicate in *.
  destruct (settled_iter c q (S k) (in_bounds_settled c q Hin)) as [Hx Hy].
  pose proof (axis_overshoot _ _ _ Hx) as Ox.
  pose proof (axis_overshoot _ _ _ Hy) as Oy.
  cbn [speed] in Sx, Sy. rewrite Sx in Ox. rewrite Sy in Oy.
  cbn [width height c] in Ox, Oy. lra.
Qed.

Lemma particles_stay_near_surface_witness :
  let p := updates [ {| width := 800; height := 600 |} ]
             (Particle_new {| width := 800; height := 600 |} halves).1 in
  -1/4 <= x p <= 800 + 1/4 /\ -1/4 <= y p <= 600 + 1/4.
Proof.
  intros p.
  assert (Hw : 0 <= offsetWidth canvas_800x600) by (cbn; lra).
  assert (Hh : 0 <= offsetHeight canvas_800x600) by (cbn; lra).
  exact (particles_stay_near_surface canvas_800x600 halves [] p eq_refl
           halves_unit Hw Hh eq_refl first_moved).
Defined.

End ExactWorld.

(** ** What a frame draws *)

Section ExactLines.
#[local] Existing Instance real.
Local Open Scope R_scope.

Lemma distance_sym (p1 p2 : Particle) : distance p1 p2 = distance p2 p1.
Proof. unfold distance; cbn. f_equal. lra. Qed.

Lemma distance_nonneg (p1 p2 : Particle) : 0 <= distance p1 p2.
Proof. unfold distance; cbn. apply sqrt_pos. Qed.

Lemma connect_opacities (p1 p2 : Particle) :
  opacities (fun alpha => 0 < alpha <= 1) (connect p1 p2).
Proof.
  unfold opacities.
  change (connect p1 p2) with
    (if (distance p1 p2 <? of_Z 150)%js
     then line p1 p2 (of_Z 1 - distance p1 p2 / of_Z 150)%js else []).
  pose proof (distance_nonneg p1 p2) as H0.
  generalize dependent (distance p1 p2). intros d H0.
  destruct (d <? of_Z 150)%js eqn:E; [| constructor].
  apply Rltb_true in E. cbn in E. unfold line.
  constructor; [cbn; lra |]. repeat (constructor; [exact I |]). constructor.
Qed.

Lemma draw_connections_opacities (particles : list Particle) :
  opacities (fun alpha => 0 < alpha <= 1) (draw_connections particles).
Proof.
  rewrite draw_connections_index_pairs. unfold opacities.
  apply Forall_bind, Forall_forall. intros [i j] _.
  unfold compose, connect_at. cbn.
  destruct (particles !! i) as [p1 |]; [| constructor].
  destruct (particles !! j) as [p2 |]; [| constructor].
  apply connect_opacities.
Qed.

(** X7: in exact arithmetic every stroke style a frame sets has an opacity
    above 0 and at most 1; the distance, and with it the opacity, is the same
    whichever particle of the pair comes first; and two particles at the
    same place get a line of opacity 1. *)
Theorem line_opacity_in_range :
  (forall (c : Canvas) (particles : list Particle),
      opacities (fun alpha => 0 < alpha <= 1)
                (frame_in_passes c particles).2) /\
  (forall p1 p2 : Particle, distance p1 p2 = distance p2 p1) /\
  (forall p1 p2 : Particle,
      x p1 = x p2 -> y p1 = y p2 -> connect p1 p2 = line p1 p2 1).
Proof.
  split; [| split].
  - intros c particles. unfold frame_in_passes, opacities. cbn [snd].
    rewrite !Forall_app. split; [| split].
    + unfold overlay. repeat constructor.
    + rewrite concat_bind. apply Forall_bind, Forall_forall. intros p _.
      unfold compose, draw. repeat constructor.
    + apply draw_connections_opacities.
  - apply distance_sym.
  - intros p1 p2 Hx Hy.
    assert (D : distance p1 p2 = 0).
    { unfold distance; cbn. rewrite Hx, Hy.
      replace ((x p2 - x p2) * (x p2 - x p2) + (y p2 - y p2) * (y p2 - y p2))
        with 0 by lra.
      apply sqrt_0. }
    change (connect p1 p2) with
      (if (distance p1 p2 <? of_Z 150)%js
       then line p1 p2 (of_Z 1 - distance p1 p2 / of_Z 150)%js else []).
    rewrite D.
    assert (E : (@js_lt real 0 (of_Z 150)) = true)
      by (apply Rltb_true; cbn; lra).
    rewrite E. f_equal. cbn. lra.
Qed.

Lemma line_opacity_in_range_witness :
  @connect real at_origin at_origin = line at_origin at_origin 1.
Proof.
  exact (proj2 (proj2 line_opacity_in_range) at_origin at_origin
           eq_refl eq_refl).
Defined.

End ExactLines.

Lemma length_pairs_from (n k : nat) : forall a,
  a + k = n ->
  2 * length (seq a k ≫= fun i => pair i <$> seq (S i) (n - S i)) =
  k * (k - 1).
Proof.
  induction k as [| k IH]; intros a Ha; [done |].
  cbn [seq]. rewrite bind_cons, length_app, length_fmap, length_seq.
  specialize (IH (S a) ltac:(lia)).
  replace (n - S a) with k by lia. nia.
Qed.

Lemma index_pairs_length (n : nat) : 2 * length (index_pairs n) = n * (n - 1).
Proof. unfold index_pairs. by apply length_pairs_from. Qed.

Section Counts.
Context `{N : Number}.

Lemma length_draws (particles : list Particle) :
  length (concat (map draw particles)) = 4 * length particles.
Proof.
  induction particles as [| p ps IH]; [done |].
  cbn [map concat]. rewrite length_app, IH. cbn [draw length]. lia.
Qed.

Lemma length_connect_at (particles : list Particle) (ij : nat * nat) :
  length (connect_at particles ij) =
  if close_at particles ij then 6 else 0.
Proof.
  unfold connect_at, close_at.
  destruct (particles !! ij.1) as [p1 |]; [| done].
  destruct (particles !! ij.2) as [p2 |]; [| done].
  change (connect p1 p2) with
    (if (distance p1 p2 <? of_Z 150)%js
     then line p1 p2 (of_Z 1 - distance p1 p2 / of_Z 150)%js else []).
  by destruct (distance p1 p2 <? of_Z 150)%js.
Qed.

Lemma length_connections_over (particles : list Particle)
    (pairs : list (nat * nat)) :
  length (pairs ≫= connect_at particles) =
  6 * length (List.filter (close_at particles) pairs) /\
  length (List.filter (close_at particles) pairs) <= length pairs.
Proof.
  induction pairs as [| ij pairs [IH1 IH2]]; [done |].
  rewrite bind_cons, length_app, length_connect_at, IH1. cbn [List.filter].
  destruct (close_at particles ij); cbn [length]; lia.
Qed.

Lemma frame_calls (c : Canvas) (particles : list Particle) :
  let advanced := map (update c) particles in
  let lines := List.filter (close_at advanced)
                           (index_pairs (length particles)) in
  length (frame_in_passes c particles).2 =
    2 + 4 * length particles + 6 * length lines /\
  2 * length lines <= length particles * (length particles - 1).
Proof.
  intros advanced lines. unfold frame_in_passes. cbn [snd].
  rewrite !length_app, length_draws, length_map.
  rewrite draw_connections_index_pairs.
  fold advanced. assert (Hl : length advanced = length particles)
    by apply length_map.
  rewrite Hl.
  destruct (length_connections_over advanced (index_pairs (length particles)))
    as [H1 H2].
  fold lines in H1, H2. rewrite H1.
  pose proof (index_pairs_length (length particles)) as H3.
  split; [cbn [overlay length]; lia | lia].
Qed.

End Counts.

(** X8: a frame makes two calls for the overlay, four for each particle and
    six for each pair of particles less than 150 apart after the update, and
    there are at most n(n-1)/2 such pairs among n particles (none when there
    are fewer than two).  With its 80 particles the running component makes
    at most 2 + 4 * 80 + 3 * (80 * 79) = 19282 calls on the context in a
    frame. *)
Theorem frame_call_count :
  forall (N : Number),
    (forall (c : Canvas) (particles : list Particle),
        let advanced := map (update c) particles in
        let lines := List.filter (close_at advanced)
                                 (index_pairs (length particles)) in
        length (frame_in_passes c particles).2 =
          2 + 4 * length particles + 6 * length lines /\
        2 * length lines <= length particles * (length particles - 1)) /\
    (forall (el : CanvasElement) (g : RandomSource) (evs : list Event),
        has_2d_context el = true ->
        let w := run (mount (Some el) g) evs in
        length (ctx_log (step w AnimationFrame)) <=
        length (ctx_log w) + (2 + 4 * 80 + 3 * (80 * 79))).
Proof.
  intros N. split; [apply frame_calls |].
  intros el g evs Hctx w.
  destruct (same_particles_run el g evs _ (same_particles_mount el g Hctx))
    as [Hs _]. fold w in Hs.
  assert (Hlen : length (particles w) = 80).
  { rewrite <- (length_map size), Hs, length_map. apply created_length. }
  destruct (phase_run evs _ (phase_mount (Some el) g))
    as [id Hcl Hp Ha Hr | Hcl Hp Hr]; fold w in Hcl, Hp, Hr.
  - rewrite (step_AnimationFrame_running w id Hp), animate_frame.
    cbn [ctx_log set_animationId set_raf set_ctx_log set_particles canvas
         particles].
    rewrite length_app.
    destruct (frame_calls (canvas w) (particles w)) as [H1 H2].
    rewrite H1. rewrite Hlen in *. lia.
  - cbn [step]. rewrite Hp. cbn [foldl ctx_log set_raf]. lia.
Qed.

Lemma frame_call_count_witness :
  let el := {| offsetWidth := @of_Z binary64 800; offsetHeight := of_Z 600;
               has_2d_context := true |} in
  let g := {| draws := fun _ => @dec binary64 5 1; cursor := 0 |} in
  let w := run (mount (Some el) g) [AnimationFrame] in
  length (ctx_log (step w AnimationFrame)) <=
  length (ctx_log w) + (2 + 4 * 80 + 3 * (80 * 79)).
Proof.
  intros el g w.
  exact (proj2 (frame_call_count binary64) el g [AnimationFrame] eq_refl).
Defined.

(** ** What the render shows *)

Lemma section_className_inj (base : string) (v1 v2 : bool) :
  section_className base v1 = section_className base v2 -> v1 = v2.
Proof.
  unfold section_className. induction base as [| a base IH]; cbn.
  - by destruct v1, v2.
  - intros [= H]. by apply IH.
Qed.

Lemma reads_visible_run_mount `{Number} current g (evs : list Event)
    (id : string) :
  reads_visible (run (mount current g) evs) id =
  existsb (reports id) (delivered evs).
Proof.
  unfold reads_visible, flag.
  rewrite isVisible_run by apply observing_mount.
  rewrite isVisible_mount.
  by destruct (existsb (reports id) (delivered evs)).
Qed.

(** X9: the render gives the four animated sections, in the order of the
    page, and the class of each is its fixed part followed by the shown
    variant if an entry reporting that section as intersecting was delivered
    before the component unmounted, by the hidden variant otherwise; right
    after the mount all four are hidden.  The two variants give different
    classes, so the class tells whether the section is shown. *)
Theorem render_follows_record :
  forall (N : Number) (current : option CanvasElement) (g : RandomSource)
         (evs : list Event),
    render_sections (run (mount current g) evs) =
      map (fun s => (s.1, section_className s.2
                            (existsb (reports s.1) (delivered evs))))
          section_bases /\
    map fst (render_sections (run (mount current g) evs)) = sections /\
    render_sections (mount current g) =
      map (fun s => (s.1, section_className s.2 false)) section_bases /\
    (forall base v1 v2,
        section_className base v1 = section_className base v2 -> v1 = v2).
Proof.
  intros N current g evs.
  assert (H1 : forall evs',
             render_sections (run (mount current g) evs') =
             map (fun s => (s.1, section_className s.2
                                   (existsb (reports s.1) (delivered evs'))))
                 section_bases).
  { intros evs'. unfold render_sections. apply map_ext. intros [id base].
    cbn [fst snd]. by rewrite reads_visible_run_mount. }
  split; [apply H1 |]. split; [reflexivity |].
  split; [exact (H1 []) | apply section_className_inj].
Qed.

Lemma render_follows_record_witness :
  let g := {| draws := fun _ => @dec binary64 5 1; cursor := 0 |} in
  render_sections (run (mount None g) two_sections) =
  [ ("concepts",
     "py-24 px-4 transition-all duration-1000 opacity-100 translate-y-0");
    ("features",
     "py-24 px-4 bg-[#0A0A12] transition-all duration-1000 opacity-0 translate-y-10");
    ("hotkeys",
     "py-24 px-4 transition-all duration-1000 opacity-0 translate-y-10");
    ("advanced",
     "py-24 px-4 bg-[#0A0A12] transition-all duration-1000 opacity-0 translate-y-10") ].
Proof.
  intros g.
  exact (proj1 (render_follows_record binary64 None g two_sections)).
Defined.

(** ** The calls received by the context *)

Section Trace.
Context `{N : Number}.

Lemma run_log (evs : list Event) : forall w : World,
  phase w -> cleanup w = true ->
  ctx_log (run w evs) =
  ctx_log w ++ frames_log (frames_bounds (canvas w) evs) (particles w).
Proof.
  induction evs as [| ev evs IH]; intros w Hph Hc.
  - cbn. by rewrite app_nil_r.
  - assert (Hph' : phase (step w ev)) by by apply phase_step.
    assert (Hc' : cleanup (step w ev) = negb (is_unmount ev))
      by (by rewrite cleanup_step, Hc).
    destruct Hph as [id _ Hp Ha Hr | Hc0 _ _]; [| congruence].
    cbn [run foldl]. fold (run (step w ev) evs).
    destruct ev as [| lw lh | entries |].
    + rewrite (IH _ Hph' Hc').
      rewrite (step_AnimationFrame_running w id Hp), animate_frame.
      cbn [frames_bounds frames_log ctx_log canvas particles
           set_animationId set_raf set_ctx_log set_particles].
      by rewrite <- app_assoc.
    + rewrite (IH _ Hph' Hc'). cbn [step]. rewrite Hr. done.
    + rewrite (IH _ Hph' Hc'). cbn [step]. by destruct (observing w).
    + cbn [frames_bounds frames_log]. rewrite app_nil_r.
      destruct (unmount_turns_off w (running w id Hc Hp Ha Hr))
        as (Hc1 & Hp1 & Hr1 & Ho1).
      rewrite (run_off evs _ Hc1 Hp1 Hr1 Ho1).
      cbn. rewrite Hc. cbn.
      unfold particle_cleanup, cancelAnimationFrame. by rewrite Ha.
Qed.

Lemma mount_log (el : CanvasElement) (g : RandomSource) :
  has_2d_context el = true ->
  let c := {| width := offsetWidth el; height := offsetHeight el |} in
  ctx_log (mount (Some el) g) = (frame_in_passes c (created el g)).2 /\
  particles (mount (Some el) g) = (frame_in_passes c (created el g)).1.
Proof.
  intros Hctx c. unfold mount, observer_effect, particle_effect. rewrite Hctx.
  cbn [resizeCanvas set_canvas set_resize_listener canvas random initial].
  unfold created. fold c.
  destruct (create_particles particleCount c g []) as [ps g'].
  rewrite animate_frame. done.
Qed.

End Trace.

(** X10: the calls the context has received after an activation and any
    events are those of the frames that ran, one after the other and nothing
    else: the frame of the activation, then one per animation frame until the
    component unmounts, each computed from the particles the previous frame
    left and the size set by the latest resize.  Resizes, intersection
    entries and the unmount make no call on the context. *)
Theorem context_receives_frames :
  forall (N : Number) (el : CanvasElement) (g : RandomSource)
         (evs : list Event),
    has_2d_context el = true ->
    let c := {| width := offsetWidth el; height := offsetHeight el |} in
    ctx_log (run (mount (Some el) g) evs) =
    frames_log (c :: frames_bounds c evs) (created el g).
Proof.
  intros N el g evs Hctx c.
  destruct (mount_log el g Hctx) as [Hlog Hps].
  destruct (mount_trajectories el g Hctx) as [Hcan _].
  rewrite run_log.
  - rewrite Hlog, Hps, Hcan. reflexivity.
  - apply phase_mount.
  - by rewrite cleanup_mount; cbn; rewrite Hctx.
Qed.

Lemma context_receives_frames_witness :
  let el := {| offsetWidth := @of_Z binary64 800; offsetHeight := of_Z 600;
               has_2d_context := true |} in
  let g := {| draws := fun _ => @dec binary64 5 1; cursor := 0 |} in
  ctx_log (run (mount (Some el) g)
             [WindowResize (of_Z 400) (of_Z 600); AnimationFrame; Unmount;
              AnimationFrame]) =
  frames_log [ {| width := of_Z 800; height := of_Z 600 |};
               {| width := of_Z 400; height := of_Z 600 |} ]
             (created el g).
Proof.
  intros el g.
  exact (context_receives_frames binary64 el g
           [WindowResize (of_Z 400) (of_Z 600); AnimationFrame; Unmount;
            AnimationFrame] eq_refl).
Defined.

(** ** The creation loop *)

(** X11: the creation loop gives the array 80 entries and no more; the
    particle at position [i] is built from the five draws numbered [5 i] to
    [5 i + 4] after the cursor, in the order x, y, vx, vy, size, so no draw
    is shared between two particles or two attributes, and only the position
    depends on the size of the canvas. *)
Theorem creation_layout :
  forall (N : Number) (el : CanvasElement) (g : RandomSource) (i : nat),
    created el g !! i =
    if decide (i < 80) then
      let r j := draws g (cursor g + 5 * i + j) in
      Some (particle_of_draws
              {| width := offsetWidth el; height := offsetHeight el |}
              (r 0) (r 1) (r 2) (r 3) (r 4))
    else None.
Proof.
  intros N el g i. destruct (decide (i < 80)) as [Hi | Hi].
  - apply created_lookup. split; [exact Hi |].
    generalize (cursor g + 5 * i). intros k.
    unfold Particle_new, Math_random, particle_of_draws.
    cbn [draws cursor fst].
    by rewrite Nat.add_0_r, !Nat.add_succ_r, Nat.add_0_r.
  - apply lookup_ge_None. rewrite created_length. lia.
Qed.
